(** * Resume / job-description matcher: the code of [main.py], embedded.

    The development follows the source file top-down:

    - [Py]: the Python built-ins the source calls ([in], [str.split],
      [str.strip], [str.startswith], [str.endswith], [int], [str.format],
      list indexing), with the exceptions they raise;
    - [load_document], [get_rag_chain], and the two halves of
      [get_matching_score_summary_and_edits]: the prompt rendering and the
      line-by-line loop that reads the model's answer.

    A Python [str] is modelled as a [string] whose characters are the code
    points U+0000 .. U+00FF. *)

From Stdlib Require Import List String Ascii ZArith NArith Bool Lia.
Import ListNotations.

Open Scope list_scope.
Open Scope string_scope.

(* ================================================================== *)
(** * Python built-ins                                                  *)
(* ================================================================== *)

Module Py.

(** The exceptions that the modelled built-ins raise.  [ValueError] carries
    its message. [Unsupported] is not a Python exception: it marks a
    replacement field of [str.format] that uses a part of the format
    mini-language (conversions, format specs, attribute or index access)
    that the model of [format] below does not cover. *)
Inductive exn : Type :=
| ValueError (msg : string)
| IndexError
| KeyError (key : string)
| Unsupported.

(** A computation that returns or raises. *)
Inductive result (A : Type) : Type :=
| Ok (a : A)
| Raise (e : exn).
Arguments Ok {A} a.
Arguments Raise {A} e.

Definition bind {A B : Type} (m : result A) (k : A -> result B) : result B :=
  match m with
  | Ok a => k a
  | Raise e => Raise e
  end.

Notation "x <- m ;; k" := (bind m (fun x => k))
  (at level 61, m at next level, right associativity).

(** [xs[i]] for a non-negative index. *)
Definition getitem {A : Type} (xs : list A) (i : nat) : result A :=
  match nth_error xs i with
  | Some x => Ok x
  | None => Raise IndexError
  end.

(** ** Character classes *)

Definition code (c : ascii) : N := N_of_ascii c.

Definition in_range (lo hi : N) (c : ascii) : bool :=
  (lo <=? code c)%N && (code c <=? hi)%N.

(** [str.isspace] on one character, the class that [str.strip] removes:
    TAB..CR, FS..US, SPACE, NEL and NBSP. *)
Definition isspace (c : ascii) : bool :=
  in_range 9 13 c || in_range 28 31 c || (code c =? 32)%N
  || (code c =? 133)%N || (code c =? 160)%N.

(** The whitespace that [int] skips around a numeral.  CPython keeps
    every code point below 127 as it is and then skips the C locale's
    white space only (TAB..CR and SPACE), so FS..US are not skipped;
    NEL and NBSP are first turned into a space. *)
Definition int_isspace (c : ascii) : bool :=
  in_range 9 13 c || (code c =? 32)%N
  || (code c =? 133)%N || (code c =? 160)%N.

Definition digit_of (c : ascii) : option Z :=
  if in_range 48 57 c then Some (Z.of_N (code c) - 48)%Z else None.

(** ** [sub in s] *)

Fixpoint contains (sub s : string) : bool :=
  prefix sub s ||
  match s with
  | EmptyString => false
  | String _ r => contains sub r
  end.

(** ** [s.startswith(p)] and [s.endswith(p)] *)

Definition startswith (p s : string) : bool := prefix p s.

Fixpoint endswith (suffix s : string) : bool :=
  (s =? suffix) ||
  match s with
  | EmptyString => false
  | String _ r => endswith suffix r
  end.

(** ** [s.split(sep)] and [s.split(sep, 1)] for a one-character [sep] *)

(** The first field and the list of the fields after it. *)
Fixpoint fields (sep : ascii) (s : string) : string * list string :=
  match s with
  | EmptyString => (EmptyString, [])
  | String c r =>
      let (h, t) := fields sep r in
      if Ascii.eqb c sep then (EmptyString, h :: t) else (String c h, t)
  end.

Definition split (sep : ascii) (s : string) : list string :=
  let (h, t) := fields sep s in h :: t.

(** The text before the first [sep], and the text after it when there is
    one. *)
Fixpoint partition (sep : ascii) (s : string) : string * option string :=
  match s with
  | EmptyString => (EmptyString, None)
  | String c r =>
      if Ascii.eqb c sep then (EmptyString, Some r)
      else let (h, t) := partition sep r in (String c h, t)
  end.

Definition split1 (sep : ascii) (s : string) : list string :=
  match partition sep s with
  | (h, None) => [h]
  | (h, Some t) => [h; t]
  end.

(** ** [s.strip()] *)

Fixpoint lstrip (s : string) : string :=
  match s with
  | EmptyString => EmptyString
  | String c r => if isspace c then lstrip r else s
  end.

Fixpoint rstrip (s : string) : string :=
  match s with
  | EmptyString => EmptyString
  | String c r =>
      match rstrip r with
      | EmptyString => if isspace c then EmptyString else String c EmptyString
      | r' => String c r'
      end
  end.

Definition strip (s : string) : string := rstrip (lstrip s).

(** ** [int(s)] for a [str] argument, base ten *)

Fixpoint int_lstrip (s : string) : string :=
  match s with
  | EmptyString => EmptyString
  | String c r => if int_isspace c then int_lstrip r else s
  end.

Fixpoint int_rstrip (s : string) : string :=
  match s with
  | EmptyString => EmptyString
  | String c r =>
      match int_rstrip r with
      | EmptyString =>
          if int_isspace c then EmptyString else String c EmptyString
      | r' => String c r'
      end
  end.

(** The digits of a numeral: one or more decimal digits, with single
    underscores allowed between two digits.  Returns the value and the
    number of digits read. *)
Fixpoint digits (after_digit : bool) (acc : Z) (n : nat) (s : string)
  : option (Z * nat) :=
  match s with
  | EmptyString => if after_digit then Some (acc, n) else None
  | String c r =>
      match digit_of c with
      | Some d => digits true (10 * acc + d)%Z (S n) r
      | None =>
          if Ascii.eqb c "_" && after_digit then digits false acc n r
          else None
      end
  end.

Definition invalid_literal : exn :=
  ValueError "invalid literal for int() with base 10".

Definition too_many_digits : exn :=
  ValueError "Exceeds the limit for integer string conversion".

(** [max_str_digits] is the interpreter's [sys.get_int_max_str_digits()]:
    0 switches the limit off; interpreters without the limit behave as
    with 0.  The limit is only looked at for numerals of more than 640
    digits. *)
Definition int_ (max_str_digits : nat) (s : string) : result Z :=
  let s := int_lstrip s in
  let (negative, s) :=
    match s with
    | String "+" r => (false, r)
    | String "-" r => (true, r)
    | _ => (false, s)
    end in
  match digits false 0%Z 0 (int_rstrip s) with
  | None => Raise invalid_literal
  | Some (v, n) =>
      if Nat.ltb 640 n && Nat.ltb 0 max_str_digits && Nat.ltb max_str_digits n
      then Raise too_many_digits
      else Ok (if negative then (- v)%Z else v)
  end.

(** The default of [sys.get_int_max_str_digits()]. *)
Definition default_max_str_digits : nat := 4300.

(** ** [template.format(k1=v1, k2=v2, ...)] *)

Fixpoint lookup (key : string) (kwargs : list (string * string))
  : option string :=
  match kwargs with
  | [] => None
  | (k, v) :: rest => if (k =? key)%string then Some v else lookup key rest
  end.

Fixpoint all_digits (s : string) : bool :=
  match s with
  | EmptyString => true
  | String c r => in_range 48 57 c && all_digits r
  end.

(** The characters that start a conversion, a format spec, an attribute
    or an index access, or a nested field. *)
Definition field_special (c : ascii) : bool :=
  Ascii.eqb c "!" || Ascii.eqb c ":" || Ascii.eqb c "."
  || Ascii.eqb c "[" || Ascii.eqb c "{".

(** [field] is [None] in literal text and [Some name] while the name of a
    replacement field is being read.  A doubled brace is a literal brace;
    a field with an empty or numeric name asks for a positional argument,
    and none is passed. *)
Fixpoint vformat (kwargs : list (string * string)) (field : option string)
  (template : string) : result string :=
  match template with
  | EmptyString =>
      match field with
      | None => Ok EmptyString
      | Some _ => Raise (ValueError "expected '}' before end of string")
      end
  | String c r =>
      match field with
      | None =>
          if Ascii.eqb c "{" then
            match r with
            | String "{" r' =>
                out <- vformat kwargs None r' ;; Ok (String "{" out)
            | _ => vformat kwargs (Some EmptyString) r
            end
          else if Ascii.eqb c "}" then
            match r with
            | String "}" r' =>
                out <- vformat kwargs None r' ;; Ok (String "}" out)
            | _ => Raise (ValueError "Single '}' encountered in format string")
            end
          else out <- vformat kwargs None r ;; Ok (String c out)
      | Some name =>
          if Ascii.eqb c "}" then
            if all_digits name then Raise IndexError
            else match lookup name kwargs with
                 | None => Raise (KeyError name)
                 | Some v => out <- vformat kwargs None r ;; Ok (v ++ out)
                 end
          else if field_special c then Raise Unsupported
          else vformat kwargs (Some (name ++ String c EmptyString)) r
      end
  end.

Definition format (template : string) (kwargs : list (string * string))
  : result string :=
  vformat kwargs None template.

End Py.

Import Py.

(* ================================================================== *)
(** * [load_document]                                                   *)
(* ================================================================== *)

(** The three loader objects the function can build; what [loader.load()]
    does with the file is the loaders' business and is a parameter. *)
Inductive loader : Type :=
| PyPDFLoader (file_path : string)
| Docx2txtLoader (file_path : string)
| TextLoader (file_path : string).

Section LoadDocument.

Variable documents : Type.
Variable loader_load : loader -> result documents.

Definition load_document (file_path : string) : result documents :=
  loader <-
    (if endswith ".pdf" file_path then Ok (PyPDFLoader file_path)
     else if endswith ".docx" file_path then Ok (Docx2txtLoader file_path)
     else if endswith ".txt" file_path then Ok (TextLoader file_path)
     else Raise (ValueError "Unsupported file type")) ;;
  loader_load loader.

End LoadDocument.

(* ================================================================== *)
(** * [get_rag_chain]: the vector store                                 *)
(* ================================================================== *)

Record text_splitter : Type := RecursiveCharacterTextSplitter
  { chunk_size : nat; chunk_overlap : nat }.

(** A langchain [Document] as [create_documents] builds it. *)
Record document : Type := Document { page_content : string }.

Section RagChain.

(** [text_splitter.split_text], the chunker, and the embedding model. *)
Variable split_text : text_splitter -> string -> list string.
Variable vector : Type.
Variable embed : string -> vector.

Definition create_documents (ts : text_splitter) (texts : list string)
  : list document :=
  flat_map (fun text => map Document (split_text ts text)) texts.

(** Modelled from the spec: the vector index behind [FAISS] is an
    append-only collection of (chunk, vector) pairs with one operation
    [insert]; [FAISS.from_documents] embeds every document it is given
    and inserts the pairs one after the other, in the order of its
    argument. *)
Definition vector_index : Type := list (document * vector).

Definition insert (index : vector_index) (entry : document * vector)
  : vector_index :=
  (index ++ [entry])%list.

Definition from_documents (docs : list document) : vector_index :=
  fold_left insert (map (fun d => (d, embed (page_content d))) docs) []%list.

(** The first four statements of [get_rag_chain]: the store that the
    retriever and the QA chain are then built on. *)
Definition get_rag_chain_vectorstore (resume_content jd_content : string)
  : vector_index :=
  let text_splitter := RecursiveCharacterTextSplitter 1000 200 in
  let resume_docs := create_documents text_splitter [resume_content] in
  let jd_docs := create_documents text_splitter [jd_content] in
  from_documents (resume_docs ++ jd_docs)%list.

End RagChain.

(* ================================================================== *)
(** * [get_matching_score_summary_and_edits]                            *)
(* ================================================================== *)

Definition prompt_template : string :=
"
    You are an AI assistant that specializes in matching resumes to job descriptions.
    Given a resume and a job description, perform the following tasks:
    1. Identify key skills from the resume that match the job description.
    2. Identify relevant project experience from the resume that aligns with the job requirements.
    3. Assess the overall compatibility between the resume and the job description.
    4. Generate a matching score out of 100, where 100 is a perfect match.
    5. Provide a concise summary explaining the matching score, highlighting strengths and weaknesses.
    6. Suggest specific edits to the resume to better match the job description. Provide these as a bulleted list.

    Resume: {resume}
    Job Description: {job_description}

    Please provide the output in the following format:

    Matching Score: [SCORE]/100
    Summary: [SUMMARY TEXT]
    Suggested Edits:
    - [EDIT 1]
    - [EDIT 2]
    - ...
    ".

Definition formatted_prompt (resume_text jd_text : string) : result string :=
  format prompt_template
    [("resume", resume_text); ("job_description", jd_text)].

(** The values of [current_section] other than [None]. *)
Inductive section : Type := score_section | summary_section | edits_section.

Definition section_eqb (a b : section) : bool :=
  match a, b with
  | score_section, score_section
  | summary_section, summary_section
  | edits_section, edits_section => true
  | _, _ => false
  end.

(** [current_section == name] *)
Definition section_is (name : section) (current : option section) : bool :=
  match current with
  | Some s => section_eqb s name
  | None => false
  end.

(** The local variables that the loop over the lines updates. *)
Record locals : Type := Locals
  { score : option Z;
    summary : string;
    suggested_edits : list string;
    current_section : option section }.

(** The dictionary the function returns. *)
Module Analysis.
Record t : Type := Make
  { matching_score : option Z;
    summary : string;
    suggested_edits : list string }.
End Analysis.

Definition newline : ascii := "010"%char.

Section ResponseParser.

Variable max_str_digits : nat.

(** The [try] block of the score branch. *)
Definition score_attempt (line : string) : result Z :=
  part <- getitem (split ":" line) 1 ;;
  let score_part := strip part in
  head <- getitem (split "/" score_part) 0 ;;
  int_ max_str_digits head.

(** [try: ... except (ValueError, IndexError): score = None] *)
Definition score_of_line (line : string) : result (option Z) :=
  match score_attempt line with
  | Ok v => Ok (Some v)
  | Raise (ValueError _) => Ok None
  | Raise IndexError => Ok None
  | Raise e => Raise e
  end.

Definition loop_body (st : locals) (line : string) : result locals :=
  if contains "Matching Score:" line then
    new_score <- score_of_line line ;;
    Ok (Locals new_score (summary st) (suggested_edits st)
          (Some score_section))
  else if contains "Summary:" line then
    part <- getitem (split1 ":" line) 1 ;;
    Ok (Locals (score st) (strip part) (suggested_edits st)
          (Some summary_section))
  else if contains "Suggested Edits:" line then
    Ok (Locals (score st) (summary st) (suggested_edits st)
          (Some edits_section))
  else if section_is edits_section (current_section st)
          && startswith "-" (strip line) then
    Ok (Locals (score st) (summary st)
          (suggested_edits st ++ [strip line])%list (current_section st))
  else if section_is summary_section (current_section st) then
    Ok (Locals (score st) (summary st ++ String newline (strip line))
          (suggested_edits st) (current_section st))
  else Ok st.

(** [for line in lines: ...] *)
Fixpoint for_lines (lines : list string) (st : locals) : result locals :=
  match lines with
  | [] => Ok st
  | line :: rest => st' <- loop_body st line ;; for_lines rest st'
  end.

Definition initial : locals := Locals None "" [] None.

(** From [score = None] to the [return]. *)
Definition parse_response (response_text : string) : result Analysis.t :=
  let lines := split newline response_text in
  st <- for_lines lines initial ;;
  Ok (Analysis.Make (score st) (summary st) (suggested_edits st)).

(** [llm.invoke] followed by the choice of the response's text. *)
Variable llm_invoke : string -> result string.

Definition get_matching_score_summary_and_edits
  (resume_text jd_text : string) : result Analysis.t :=
  prompt <- formatted_prompt resume_text jd_text ;;
  response_text <- llm_invoke prompt ;;
  parse_response response_text.

End ResponseParser.

(* ================================================================== *)
(** * [extract_text_from_documents]                                     *)
(* ================================================================== *)

(** ["\n".join(parts)] *)
Definition join_lines (parts : list string) : string :=
  String.concat (String newline EmptyString) parts.

Definition extract_text_from_documents (documents : list document) : string :=
  join_lines (map page_content documents).

(* ================================================================== *)
(** * [streamlit_app.py]: what [main] computes                          *)
(* ================================================================== *)


(** [s[:n]] for a non-negative [n] *)
Definition slice_to (n : nat) (s : string) : string := substring 0 n s.

(** The truth value of an [int] or [None] in a condition. *)
Definition truthy (value : option Z) : bool :=
  match value with
  | Some z => negb (z =? 0)%Z
  | None => false
  end.

Section ResumeUpload.

(** [loader.load()], and the directory, prefix and random part of the
    name that [tempfile.NamedTemporaryFile] gives the file; the name ends
    with the suffix that is passed. *)
Variable loader_load : loader -> result (list document).
Variable tmp_base : string.



End ResumeUpload.

(** [text[:limit] + "..." if len(text) > limit else text] *)
Definition preview (limit : nat) (text : string) : string :=
  if Nat.ltb limit (String.length text)
  then slice_to limit text ++ "..."
  else text.

Definition resume_preview (resume_text : string) : string :=
  preview 1000 resume_text.

(** [jd_text] after a successful fetch, and its preview. *)
Definition fetched_jd_text (response_text : string) : string :=
  slice_to 5000 response_text.

Definition jd_preview (jd_text : string) : string := preview 500 jd_text.

(** The colour of the score, computed when the score is truthy. *)
Definition score_color (matching_score : Z) : string :=
  if (70 <=? matching_score)%Z then "green"
  else if (50 <=? matching_score)%Z then "orange"
  else "red".

(** The score box: the colour and the number shown before "/100", or
    [None] for the gray "N/A". *)
Definition score_box (matching_score : option Z) : option (string * Z) :=
  match matching_score with
  | Some z => if truthy matching_score then Some (score_color z, z) else None
  | None => None
  end.

(** The three kinds of message box. *)
Inductive alert : Type :=
| success (text : string)
| warning (text : string)
| error (text : string).

(** The "Key Strengths" column. *)
Definition key_strengths (matching_score : option Z) : alert :=
  let at_least (bound : Z) :=
    match matching_score with
    | Some z => truthy matching_score && (bound <=? z)%Z
    | None => false
    end in
  if at_least 70%Z then
    success "Strong match! Your resume aligns well with the job requirements."
  else if at_least 50%Z then
    warning "Good potential! Some improvements could strengthen your application."
  else
    error "Significant gaps identified. Consider major revisions to better match the role.".

(* ================================================================== *)
(** * Vocabulary of the statements                                      *)
(* ================================================================== *)

(** [sub] occurs in [s]. *)
Definition occurs_in (sub s : string) : Prop :=
  exists pre post, s = pre ++ sub ++ post.

(** [s] ends with [suffix]. *)
Definition ends_with (suffix s : string) : Prop :=
  exists pre, s = pre ++ suffix.

(** The character [c] does not occur in [s]. *)
Fixpoint lacks (c : ascii) (s : string) : bool :=
  match s with
  | EmptyString => true
  | String d r => negb (Ascii.eqb d c) && lacks c r
  end.

(** Following the specification's words: the section a line opens is the
    first of the three markers, in the order score, summary, edits, that
    occurs in the line; a line in which none occurs opens no section. *)
Definition marker_of (line : string) : option section :=
  if contains "Matching Score:" line then Some score_section
  else if contains "Summary:" line then Some summary_section
  else if contains "Suggested Edits:" line then Some edits_section
  else None.

(** What a [try ... except (ValueError, IndexError)] makes of a result. *)
Definition caught {A : Type} (r : result A) : option A :=
  match r with
  | Ok v => Some v
  | Raise _ => None
  end.

(** The text before the first [sep] of [s], all of [s] when it has none. *)
Definition before (sep : ascii) (s : string) : string :=
  fst (partition sep s).

(** The summary after the lines [body] were added to [seed]. *)
Definition summary_with (seed : string) (body : list string) : string :=
  fold_left (fun acc line => acc ++ String newline (strip line)) body seed.

(** A line in which no marker occurs. *)
Definition plain (line : string) : bool :=
  match marker_of line with
  | None => true
  | Some _ => false
  end.

(** The lines of [body] that are kept as edits. *)
Definition dash_lines (body : list string) : list string :=
  filter (startswith "-") (map strip body).

(** Whether the score of a result, when there is one, lies in 0..100. *)
Definition score_in_range (r : Analysis.t) : Prop :=
  match Analysis.matching_score r with
  | Some z => (0 <= z <= 100)%Z
  | None => True
  end.

(** The three pieces of the template around its two fields. *)
Definition prompt_head : string :=
"
    You are an AI assistant that specializes in matching resumes to job descriptions.
    Given a resume and a job description, perform the following tasks:
    1. Identify key skills from the resume that match the job description.
    2. Identify relevant project experience from the resume that aligns with the job requirements.
    3. Assess the overall compatibility between the resume and the job description.
    4. Generate a matching score out of 100, where 100 is a perfect match.
    5. Provide a concise summary explaining the matching score, highlighting strengths and weaknesses.
    6. Suggest specific edits to the resume to better match the job description. Provide these as a bulleted list.

    Resume: ".

Definition prompt_middle : string :=
"
    Job Description: ".

Definition prompt_tail : string :=
"

    Please provide the output in the following format:

    Matching Score: [SCORE]/100
    Summary: [SUMMARY TEXT]
    Suggested Edits:
    - [EDIT 1]
    - [EDIT 2]
    - ...
    ".

(** The last character of a string. *)
Fixpoint last_char (s : string) : option ascii :=
  match s with
  | EmptyString => None
  | String c EmptyString => Some c
  | String _ r => last_char r
  end.

(** A string of white space only. *)
Fixpoint blank (s : string) : bool :=
  match s with
  | EmptyString => true
  | String c r => isspace c && blank r
  end.

(** [line'] is [line] with white space added at its two ends. *)
Definition padded (line line' : string) : Prop :=
  exists pre post,
    blank pre = true /\ blank post = true /\ line' = pre ++ line ++ post.

(** [xs] is [ys] with some elements left out. *)
Inductive subseq {A : Type} : list A -> list A -> Prop :=
| subseq_nil : subseq []%list []%list
| subseq_skip (y : A) (xs ys : list A) :
    subseq xs ys -> subseq xs (y :: ys)
| subseq_take (x : A) (xs ys : list A) :
    subseq xs ys -> subseq (x :: xs) (x :: ys).

(** The numeral written with the decimal digits [ds], and its value. *)
Definition digit_char (d : nat) : ascii := ascii_of_nat (48 + d).

Fixpoint numeral (ds : list nat) : string :=
  match ds with
  | []%list => EmptyString
  | (d :: rest)%list => String (digit_char d) (numeral rest)
  end.

Definition numeral_value (ds : list nat) : Z :=
  fold_left (fun acc d => (10 * acc + Z.of_nat d)%Z) ds 0%Z.

(** The three fields of the loop's variables that are returned. *)
Definition result_of (st : locals) : Analysis.t :=
  Analysis.Make (score st) (summary st) (suggested_edits st).

(** None of the three markers occurs in [text]. *)
Definition marker_free (text : string) : Prop :=
  ~ occurs_in "Matching Score:" text /\ ~ occurs_in "Summary:" text /\
  ~ occurs_in "Suggested Edits:" text.

(** A string that is empty or whose last character is not white space. *)
Definition ends_solid (s : string) : bool :=
  match last_char s with
  | Some c => negb (isspace c)
  | None => true
  end.

Definition carriage_return : ascii := "013"%char.

(** The lines that remain, once a text made of [lines] joined by a
    carriage return and a newline is cut at its newlines: every line but
    the last keeps the carriage return. *)
Fixpoint crlf_lines (lines : list string) : list string :=
  match lines with
  | []%list => []%list
  | [x]%list => [x]%list
  | (x :: rest)%list =>
      ((x ++ String carriage_return "")%string :: crlf_lines rest)%list
  end.



(* ================================================================== *)
(** * Facts about the built-ins                                         *)
(* ================================================================== *)

Section StringFacts.

Lemma append_nil_r (s : string) : s ++ "" = s.
Proof. induction s as [|c s IH]; simpl; [reflexivity | now rewrite IH]. Qed.

Lemma append_assoc (a b c : string) : (a ++ b) ++ c = a ++ (b ++ c).
Proof. induction a as [|x a IH]; simpl; [reflexivity | now rewrite IH]. Qed.

Lemma prefix_true_iff (p s : string) :
  prefix p s = true <-> exists r, s = p ++ r.
Proof.
  revert s; induction p as [|c p IH]; intros s.
  - destruct s; simpl; split; eauto.
  - destruct s as [|d s]; simpl.
    + split; [discriminate | intros [r H]; discriminate].
    + destruct (ascii_dec c d) as [->|ne].
      * rewrite IH. split; intros [r H]; exists r; congruence.
      * split; [discriminate | intros [r H]; congruence].
Qed.

Lemma contains_true_iff (sub s : string) :
  contains sub s = true <-> occurs_in sub s.
Proof.
  unfold occurs_in. induction s as [|c s IH]; cbn [contains].
  - rewrite orb_false_r, prefix_true_iff. split.
    + intros [r H]. exists "", r. exact H.
    + intros [pre [post H]]. destruct pre; [eauto | discriminate].
  - rewrite orb_true_iff, prefix_true_iff, IH. split.
    + intros [[r H] | [pre [post H]]].
      * exists "", r. exact H.
      * exists (String c pre), post. simpl. now rewrite H.
    + intros [[|d pre] [post H]]; simpl in H.
      * left. eauto.
      * right. exists pre, post. congruence.
Qed.

Lemma contains_false_iff (sub s : string) :
  contains sub s = false <-> ~ occurs_in sub s.
Proof.
  rewrite <- contains_true_iff. destruct (contains sub s); split;
    intros; reflexivity || discriminate || congruence.
Qed.

Lemma endswith_true_iff (suffix s : string) :
  endswith suffix s = true <-> ends_with suffix s.
Proof.
  unfold ends_with. induction s as [|c s IH]; cbn [endswith].
  - rewrite orb_false_r, String.eqb_eq. split.
    + intros <-. now exists "".
    + intros [[|d pre] H]; simpl in H; [now subst | discriminate].
  - rewrite orb_true_iff, String.eqb_eq, IH. split.
    + intros [<- | [pre H]].
      * now exists "".
      * exists (String c pre). simpl. now rewrite H.
    + intros [[|d pre] H]; simpl in H.
      * now left.
      * right. exists pre. congruence.
Qed.

(** *** Splitting *)

Lemma fields_app (sep : ascii) (a b : string) :
  lacks sep a = true ->
  fields sep (a ++ String sep b) = (a, split sep b).
Proof.
  unfold split. induction a as [|c a IH]; simpl; intros H.
  - rewrite Ascii.eqb_refl. now destruct (fields sep b).
  - apply andb_true_iff in H as [Hc Ha].
    rewrite (IH Ha). apply negb_true_iff in Hc. rewrite Hc.
    now destruct (fields sep b).
Qed.

Lemma split_app (sep : ascii) (a b : string) :
  lacks sep a = true ->
  split sep (a ++ String sep b) = a :: split sep b.
Proof. intros H. unfold split at 1. now rewrite (fields_app _ _ _ H). Qed.

Lemma partition_app (sep : ascii) (a b : string) :
  lacks sep a = true ->
  partition sep (a ++ String sep b) = (a, Some b).
Proof.
  induction a as [|c a IH]; simpl; intros H.
  - now rewrite Ascii.eqb_refl.
  - apply andb_true_iff in H as [Hc Ha].
    apply negb_true_iff in Hc. now rewrite Hc, (IH Ha).
Qed.

(** Every string with a [sep] in it splits at its first [sep]. *)
Lemma first_sep (sep : ascii) (s : string) :
  lacks sep s = false ->
  exists a b, s = a ++ String sep b /\ lacks sep a = true.
Proof.
  induction s as [|c s IH]; simpl; [discriminate|].
  destruct (Ascii.eqb_spec c sep) as [->|ne]; simpl.
  - intros _. now exists "", s.
  - intros H. destruct (IH H) as [a [b [E L]]].
    exists (String c a), b. simpl. rewrite E, L.
    split; [reflexivity|]. apply Ascii.eqb_neq in ne. now rewrite ne.
Qed.

Lemma lacks_app (sep : ascii) (a b : string) :
  lacks sep (a ++ b) = lacks sep a && lacks sep b.
Proof.
  induction a as [|c a IH]; simpl; [reflexivity|].
  now rewrite IH, andb_assoc.
Qed.

(** A line in which a text with a [sep] occurs has a [sep]. *)
Lemma occurs_lacks (sep : ascii) (sub s : string) :
  lacks sep sub = false -> occurs_in sub s -> lacks sep s = false.
Proof.
  intros H [pre [post ->]]. rewrite !lacks_app, H.
  now rewrite andb_false_r.
Qed.

End StringFacts.

(* ================================================================== *)
(** * The loop over the lines of the response                           *)
(* ================================================================== *)

Section LoopFacts.

Variable limit : nat.

Lemma marker_of_score (line : string) :
  marker_of line = Some score_section <->
  occurs_in "Matching Score:" line.
Proof.
  rewrite <- contains_true_iff. unfold marker_of.
  destruct (contains "Matching Score:" line);
    [ tauto | ].
  destruct (contains "Summary:" line);
    [ split; discriminate | ].
  destruct (contains "Suggested Edits:" line); split; discriminate.
Qed.

Lemma marker_of_summary (line : string) :
  marker_of line = Some summary_section <->
  ~ occurs_in "Matching Score:" line /\ occurs_in "Summary:" line.
Proof.
  rewrite <- contains_false_iff, <- contains_true_iff. unfold marker_of.
  destruct (contains "Matching Score:" line).
  - split; [discriminate | intros [H _]; discriminate].
  - destruct (contains "Summary:" line); [tauto|].
    destruct (contains "Suggested Edits:" line);
      (split; [discriminate | intros [_ H]; discriminate]).
Qed.

Lemma marker_of_edits (line : string) :
  marker_of line = Some edits_section <->
  ~ occurs_in "Matching Score:" line /\ ~ occurs_in "Summary:" line /\
  occurs_in "Suggested Edits:" line.
Proof.
  rewrite <- !contains_false_iff, <- contains_true_iff. unfold marker_of.
  destruct (contains "Matching Score:" line).
  - split; [discriminate | intros [H _]; discriminate].
  - destruct (contains "Summary:" line).
    + split; [discriminate | intros [_ [H _]]; discriminate].
    + destruct (contains "Suggested Edits:" line); [tauto|].
      split; [discriminate | intros [_ [_ H]]; discriminate].
Qed.

Lemma marker_of_none (line : string) :
  marker_of line = None <->
  ~ occurs_in "Matching Score:" line /\ ~ occurs_in "Summary:" line /\
  ~ occurs_in "Suggested Edits:" line.
Proof.
  rewrite <- !contains_false_iff. unfold marker_of.
  destruct (contains "Matching Score:" line).
  - split; [discriminate | intros [H _]; discriminate].
  - destruct (contains "Summary:" line).
    + split; [discriminate | intros [_ [H _]]; discriminate].
    + destruct (contains "Suggested Edits:" line); [|tauto].
      split; [discriminate | intros [_ [_ H]]; discriminate].
Qed.

(** *** The exceptions of the [try] block *)

Lemma getitem_raises {A : Type} (xs : list A) (i : nat) (e : exn) :
  getitem xs i = Raise e -> e = IndexError.
Proof. unfold getitem. destruct (nth_error xs i); congruence. Qed.

Lemma int_raises (s : string) (e : exn) :
  int_ limit s = Raise e -> exists msg, e = ValueError msg.
Proof.
  unfold int_. destruct (int_lstrip s) as [|c r]; cbn zeta.
  - simpl. intros [= <-]. eexists; reflexivity.
  - set (p := match c with "+"%char => _ | _ => _ end).
    destruct p as [negative s'].
    destruct (digits false 0 0 (int_rstrip s')) as [[v n]|].
    + destruct (_ && _); [|discriminate].
      intros [= <-]. eexists; reflexivity.
    + intros [= <-]. eexists; reflexivity.
Qed.

Lemma score_attempt_raises (line : string) (e : exn) :
  score_attempt limit line = Raise e ->
  e = IndexError \/ exists msg, e = ValueError msg.
Proof.
  unfold score_attempt, bind.
  destruct (getitem (split ":" line) 1) as [part|e1] eqn:E1.
  - destruct (getitem (split "/" (strip part)) 0) as [head|e2] eqn:E2.
    + intros H. right. exact (int_raises _ _ H).
    + intros [= <-]. left. exact (getitem_raises _ _ _ E2).
  - intros [= <-]. left. exact (getitem_raises _ _ _ E1).
Qed.

Lemma score_of_line_caught (line : string) :
  score_of_line limit line = Ok (caught (score_attempt limit line)).
Proof.
  unfold score_of_line.
  destruct (score_attempt limit line) as [v|e] eqn:E; [reflexivity|].
  destruct (score_attempt_raises _ _ E) as [->|[msg ->]]; reflexivity.
Qed.

(** *** One line *)

(** Turns a hypothesis on [marker_of line] into the values of the three
    tests of the loop body. *)
Ltac markers H line :=
  unfold plain, marker_of in H;
  destruct (contains "Matching Score:" line) eqn:Hscore;
  destruct (contains "Summary:" line) eqn:Hsummary;
  destruct (contains "Suggested Edits:" line) eqn:Hedits;
  try discriminate H;
  unfold loop_body; rewrite ?Hscore, ?Hsummary, ?Hedits.

Lemma partition_some (sep : ascii) (s a b : string) :
  partition sep s = (a, Some b) ->
  s = a ++ String sep b /\ lacks sep a = true.
Proof.
  revert a; induction s as [|c s IH]; simpl; intros a; [discriminate|].
  destruct (Ascii.eqb_spec c sep) as [->|ne].
  - intros [= <- <-]. now split.
  - destruct (partition sep s) as [h t]. intros [= <- ->].
    destruct (IH h eq_refl) as [-> L]. simpl. rewrite L.
    apply Ascii.eqb_neq in ne. now rewrite ne.
Qed.

Lemma fields_before (sep : ascii) (s : string) :
  fst (fields sep s) = before sep s.
Proof.
  unfold before. induction s as [|c s IH]; simpl; [reflexivity|].
  destruct (fields sep s) as [h t], (partition sep s) as [h' t'].
  simpl in IH. subst h'. now destruct (Ascii.eqb c sep).
Qed.

Lemma split_first (sep : ascii) (s : string) :
  getitem (split sep s) 0 = Ok (before sep s).
Proof.
  rewrite <- fields_before. unfold split.
  now destruct (fields sep s).
Qed.

Lemma split_second (sep : ascii) (s a rest : string) :
  partition sep s = (a, Some rest) ->
  getitem (split sep s) 1 = Ok (before sep rest).
Proof.
  intros H. apply partition_some in H as [-> L].
  rewrite (split_app _ _ _ L). exact (split_first sep rest).
Qed.

(** A line in which a marker occurs has a colon. *)
Lemma occurs_partition (sub line : string) :
  lacks ":" sub = false -> occurs_in sub line ->
  exists a rest, partition ":" line = (a, Some rest).
Proof.
  intros Hsub Hocc.
  destruct (first_sep ":" line (occurs_lacks _ _ _ Hsub Hocc))
    as [a [rest [-> L]]].
  exists a, rest. exact (partition_app _ _ _ L).
Qed.

Lemma score_attempt_reads (line a rest : string) :
  partition ":" line = (a, Some rest) ->
  score_attempt limit line
  = int_ limit (before "/" (strip (before ":" rest))).
Proof.
  intros H. unfold score_attempt.
  rewrite (split_second _ _ _ _ H). cbn [bind].
  now rewrite split_first.
Qed.

Lemma loop_body_score_line (st : locals) (line : string) :
  marker_of line = Some score_section ->
  loop_body limit st line
  = Ok (Locals (caught (score_attempt limit line)) (summary st)
          (suggested_edits st) (Some score_section)).
Proof.
  intros H. markers H line; now rewrite score_of_line_caught.
Qed.

Lemma loop_body_summary_line (line : string) :
  marker_of line = Some summary_section ->
  exists a rest,
    partition ":" line = (a, Some rest) /\
    forall st, loop_body limit st line
               = Ok (Locals (score st) (strip rest) (suggested_edits st)
                       (Some summary_section)).
Proof.
  intros H.
  destruct (occurs_partition "Summary:" line eq_refl) as [a [rest E]].
  { apply marker_of_summary in H. tauto. }
  exists a, rest. split; [exact E|]. intros st.
  markers H line; unfold split1; now rewrite E.
Qed.

Lemma loop_body_edits_line (st : locals) (line : string) :
  marker_of line = Some edits_section ->
  loop_body limit st line
  = Ok (Locals (score st) (summary st) (suggested_edits st)
          (Some edits_section)).
Proof.
  intros H. now markers H line.
Qed.

Lemma loop_body_plain (st : locals) (line : string) :
  plain line = true ->
  loop_body limit st line
  = Ok (if section_is edits_section (current_section st)
           && startswith "-" (strip line)
        then Locals (score st) (summary st)
               (suggested_edits st ++ [strip line])%list
               (current_section st)
        else if section_is summary_section (current_section st)
        then Locals (score st) (summary st ++ String newline (strip line))
               (suggested_edits st) (current_section st)
        else st).
Proof.
  intros H. markers H line.
  destruct (_ && _); [reflexivity|].
  now destruct (section_is summary_section _).
Qed.

Lemma loop_body_total (st : locals) (line : string) :
  exists st', loop_body limit st line = Ok st'.
Proof.
  destruct (marker_of line) as [[| |]|] eqn:M.
  - rewrite (loop_body_score_line _ _ M). eauto.
  - destruct (loop_body_summary_line _ M) as [a [rest [_ H]]].
    rewrite H. eauto.
  - rewrite (loop_body_edits_line _ _ M). eauto.
  - rewrite loop_body_plain by (unfold plain; now rewrite M). eauto.
Qed.

End LoopFacts.

(** *** Runs of lines *)

Section Runs.

Variable limit : nat.

Lemma for_lines_app (xs ys : list string) (st : locals) :
  for_lines limit (xs ++ ys) st
  = (st' <- for_lines limit xs st ;; for_lines limit ys st').
Proof.
  revert st; induction xs as [|x xs IH]; intros st; simpl; [reflexivity|].
  destruct (loop_body limit st x); simpl; [apply IH | reflexivity].
Qed.

Lemma for_lines_total (lines : list string) (st : locals) :
  exists st', for_lines limit lines st = Ok st'.
Proof.
  revert st; induction lines as [|x xs IH]; intros st; simpl; [eauto|].
  destruct (loop_body_total limit st x) as [st1 ->]. apply IH.
Qed.

(** Plain lines in the edits section: the dash lines are appended. *)
Lemma for_lines_plain_edits (body : list string) (st : locals) :
  forallb plain body = true ->
  current_section st = Some edits_section ->
  for_lines limit body st
  = Ok (Locals (score st) (summary st)
          (suggested_edits st ++ dash_lines body)%list
          (Some edits_section)).
Proof.
  revert st; induction body as [|x xs IH]; intros [sc sm ed cs] P S;
    simpl in S; subst cs.
  - simpl. now rewrite app_nil_r.
  - simpl in P. apply andb_true_iff in P as [Px Pxs].
    cbn [for_lines]. rewrite (loop_body_plain _ _ _ Px).
    unfold dash_lines. simpl.
    destruct (startswith "-" (strip x)); simpl.
    + rewrite IH by (simpl; auto). simpl. now rewrite <- app_assoc.
    + now rewrite IH by (simpl; auto).
Qed.

(** Plain lines in the summary section: every line is appended. *)
Lemma for_lines_plain_summary (body : list string) (st : locals) :
  forallb plain body = true ->
  current_section st = Some summary_section ->
  for_lines limit body st
  = Ok (Locals (score st) (summary_with (summary st) body)
          (suggested_edits st) (Some summary_section)).
Proof.
  revert st; induction body as [|x xs IH]; intros [sc sm ed cs] P S;
    simpl in S; subst cs.
  - reflexivity.
  - simpl in P. apply andb_true_iff in P as [Px Pxs].
    cbn [for_lines]. rewrite (loop_body_plain _ _ _ Px). simpl.
    now rewrite IH by (simpl; auto).
Qed.

(** Plain lines in the score section or before any section: dropped. *)
Lemma for_lines_plain_idle (body : list string) (st : locals) :
  forallb plain body = true ->
  current_section st = Some score_section \/ current_section st = None ->
  for_lines limit body st = Ok st.
Proof.
  induction body as [|x xs IH]; intros P S; [reflexivity|].
  simpl in P. apply andb_true_iff in P as [Px Pxs].
  cbn [for_lines]. rewrite (loop_body_plain _ _ _ Px).
  destruct S as [S|S]; rewrite S; simpl; apply IH; auto.
Qed.

(** The list of edits only grows. *)
Lemma loop_body_edits_grow (st st' : locals) (line : string) :
  loop_body limit st line = Ok st' ->
  exists added, suggested_edits st' = (suggested_edits st ++ added)%list.
Proof.
  destruct (marker_of line) as [[| |]|] eqn:M.
  - rewrite (loop_body_score_line _ _ _ M). intros [= <-].
    exists []%list. simpl. now rewrite app_nil_r.
  - destruct (loop_body_summary_line limit _ M) as [a [rest [_ H]]].
    rewrite H. intros [= <-]. exists []%list. simpl. now rewrite app_nil_r.
  - rewrite (loop_body_edits_line _ _ _ M). intros [= <-].
    exists []%list. simpl. now rewrite app_nil_r.
  - rewrite loop_body_plain by (unfold plain; now rewrite M).
    destruct (_ && _).
    + intros [= <-]. now exists [strip line].
    + destruct (section_is summary_section _); intros [= <-];
        exists []%list; simpl; now rewrite app_nil_r.
Qed.

Lemma for_lines_edits_grow (lines : list string) (st st' : locals) :
  for_lines limit lines st = Ok st' ->
  exists added, suggested_edits st' = (suggested_edits st ++ added)%list.
Proof.
  revert st; induction lines as [|x xs IH]; intros st; simpl.
  - intros [= <-]. exists []%list. now rewrite app_nil_r.
  - destruct (loop_body limit st x) as [st1|] eqn:E; simpl; [|discriminate].
    intros H. destruct (loop_body_edits_grow _ _ _ E) as [a1 E1].
    destruct (IH _ H) as [a2 E2].
    exists (a1 ++ a2)%list. now rewrite E2, E1, app_assoc.
Qed.

(** The score after a run of lines is the one read from the last line
    with the score marker, when there is one. *)
Lemma for_lines_last_score (lines : list string) (st st' : locals) :
  for_lines limit lines st = Ok st' ->
  score st'
  = match find (contains "Matching Score:") (rev lines) with
    | Some line => caught (score_attempt limit line)
    | None => score st
    end.
Proof.
  revert st'; induction lines as [|x xs IH] using rev_ind; intros st'.
  - simpl. now intros [= <-].
  - rewrite for_lines_app, rev_app_distr. simpl.
    destruct (for_lines limit xs st) as [st1|] eqn:E; simpl; [|discriminate].
    destruct (loop_body limit st1 x) as [st2|] eqn:B; simpl; [|discriminate].
    intros [= <-]. specialize (IH _ eq_refl).
    destruct (contains "Matching Score:" x) eqn:C.
    + assert (M : marker_of x = Some score_section)
        by (unfold marker_of; now rewrite C).
      rewrite (loop_body_score_line _ _ _ M) in B. now inversion B.
    + rewrite <- IH. revert B. unfold loop_body. rewrite C.
      destruct (contains "Summary:" x).
      * unfold bind. destruct (getitem _ 1); [|discriminate].
        now intros [= <-].
      * destruct (contains "Suggested Edits:" x); [now intros [= <-]|].
        destruct (_ && _); [now intros [= <-]|].
        destruct (section_is summary_section _); now intros [= <-].
Qed.

End Runs.

(* ================================================================== *)
(** * The response parser: properties                                   *)
(* ================================================================== *)

(** C1. The response parser is total: on every input string it returns a
    result object and never raises; on the empty string the result has
    no score, the empty summary and no edits. *)
Theorem parse_response_total (limit : nat) :
  (forall response_text : string,
      exists result, parse_response limit response_text = Ok result) /\
  parse_response limit "" = Ok (Analysis.Make None "" []).
Proof.
  split; [|reflexivity].
  intros text. unfold parse_response.
  destruct (for_lines_total limit (split newline text) initial) as [st ->].
  simpl. eauto.
Qed.

(** C2, as stated, fails: a score line with no slash still yields its
    score, and the text that is read ends at the second colon of the
    line, so a colon before the slash does not spoil the number. *)
Lemma score_line_without_slash :
  lacks "/" "Matching Score: 82" = true /\
  parse_response default_max_str_digits "Matching Score: 82"
  = Ok (Analysis.Make (Some 82%Z) "" []) /\
  parse_response default_max_str_digits "Matching Score: 82:5/100"
  = Ok (Analysis.Make (Some 82%Z) "" []).
Proof. repeat split; vm_compute; reflexivity. Qed.

(** C2, amended. On a line in which the score marker occurs, the parser
    takes the text between the first colon of the line and the next colon
    (or the end of the line), trims it, takes what precedes its first
    slash (all of it when there is no slash) and converts that with
    [int]; when the conversion fails the score is absent, and the line is
    processed without an error either way.  "Matching Score: 82/100"
    gives 82, "Matching Score: N/A" gives no score, and the slash-less
    "Matching Score: 82" gives 82. *)
Theorem score_line_reading (limit : nat) :
  (forall (st : locals) (line : string),
      occurs_in "Matching Score:" line ->
      exists a rest,
        line = a ++ String ":" rest /\ lacks ":" a = true /\
        loop_body limit st line
        = Ok (Locals
                (caught (int_ limit (before "/" (strip (before ":" rest)))))
                (summary st) (suggested_edits st) (Some score_section))) /\
  parse_response limit "Matching Score: 82/100"
  = Ok (Analysis.Make (Some 82%Z) "" []) /\
  parse_response limit "Matching Score: N/A"
  = Ok (Analysis.Make None "" []) /\
  parse_response limit "Matching Score: 82"
  = Ok (Analysis.Make (Some 82%Z) "" []).
Proof.
  split; [|repeat split; reflexivity].
  intros st line Hocc.
  destruct (occurs_partition "Matching Score:" line eq_refl Hocc)
    as [a [rest E]].
  exists a, rest. destruct (partition_some _ _ _ _ E) as [Hline Ha].
  repeat split; trivial.
  rewrite loop_body_score_line by now apply marker_of_score.
  now rewrite (score_attempt_reads limit _ _ _ E).
Qed.

Lemma score_line_reading_witness :
  exists a rest,
    "Matching Score: 82/100" = a ++ String ":" rest /\
    lacks ":" a = true /\
    loop_body default_max_str_digits initial "Matching Score: 82/100"
    = Ok (Locals
            (caught (int_ default_max_str_digits
                       (before "/" (strip (before ":" rest)))))
            (summary initial) (suggested_edits initial)
            (Some score_section)).
Proof.
  apply (proj1 (score_line_reading default_max_str_digits)).
  exists "", " 82/100". reflexivity.
Defined.

(** C3, as stated, fails: the number before the slash is returned as it
    is, above 100 or below 0. *)
Lemma score_out_of_range :
  (exists r, parse_response default_max_str_digits "Matching Score: 150/100"
             = Ok r /\
             Analysis.matching_score r = Some 150%Z /\ ~ score_in_range r) /\
  (exists r, parse_response default_max_str_digits "Matching Score: -5/100"
             = Ok r /\
             Analysis.matching_score r = Some (-5)%Z /\ ~ score_in_range r).
Proof.
  split; eexists; (split; [reflexivity|]); (split; [reflexivity|]);
    unfold score_in_range; simpl; lia.
Qed.

(** C3, amended. For every input string the score of the result is absent
    when no line has the score marker, and is otherwise what the last
    line with the marker yields: absent when its number does not
    convert, else that integer, whatever its size or sign. *)
Theorem matching_score_is_last_score_line (limit : nat) (text : string) :
  exists r,
    parse_response limit text = Ok r /\
    Analysis.matching_score r
    = match find (contains "Matching Score:") (rev (split newline text)) with
      | Some line => caught (score_attempt limit line)
      | None => None
      end.
Proof.
  unfold parse_response.
  destruct (for_lines_total limit (split newline text) initial) as [st E].
  rewrite E. simpl. eexists; split; [reflexivity|]. simpl.
  exact (for_lines_last_score limit _ _ _ E).
Qed.

(** A marker line of another section ends the section before it: the run
    of plain lines after it changes neither the edits (after a score or
    summary marker) nor the summary (after a score or edits marker). *)
Lemma for_lines_after_score (limit : nat) (st : locals)
  (marker : string) (tail : list string) :
  marker_of marker = Some score_section ->
  forallb plain tail = true ->
  exists st',
    for_lines limit (marker :: tail) st = Ok st' /\
    summary st' = summary st /\ suggested_edits st' = suggested_edits st.
Proof.
  intros M P. cbn [for_lines].
  rewrite (loop_body_score_line _ _ _ M). cbn [bind].
  rewrite for_lines_plain_idle by (simpl; auto).
  eexists; split; [reflexivity|]. now split.
Qed.

Lemma for_lines_after_summary (limit : nat) (st : locals)
  (marker : string) (tail : list string) :
  marker_of marker = Some summary_section ->
  forallb plain tail = true ->
  exists st',
    for_lines limit (marker :: tail) st = Ok st' /\
    suggested_edits st' = suggested_edits st.
Proof.
  intros M P. cbn [for_lines].
  destruct (loop_body_summary_line limit _ M) as [a [rest [_ H]]].
  rewrite H. cbn [bind].
  rewrite for_lines_plain_summary by (simpl; auto).
  eexists; split; reflexivity.
Qed.

Lemma for_lines_edits_block (limit : nat) (st : locals)
  (header : string) (body : list string) :
  marker_of header = Some edits_section ->
  forallb plain body = true ->
  for_lines limit (header :: body) st
  = Ok (Locals (score st) (summary st)
          (suggested_edits st ++ dash_lines body)%list
          (Some edits_section)).
Proof.
  intros M P. cbn [for_lines].
  rewrite (loop_body_edits_line _ _ _ M). cbn [bind].
  now rewrite for_lines_plain_edits by (simpl; auto).
Qed.

(** C4. After a line that opens the edits section, exactly the following
    plain lines whose trimmed text starts with a dash are appended,
    trimmed and in order, to the edits, and the other plain lines are
    dropped; a score or summary marker line ends the accumulation, as in
    the example whose edits stop at the "Summary:" line. *)
Theorem edits_section_keeps_dash_lines (limit : nat) :
  (forall (st : locals) (header : string) (body : list string),
      marker_of header = Some edits_section ->
      forallb plain body = true ->
      for_lines limit (header :: body) st
      = Ok (Locals (score st) (summary st)
              (suggested_edits st
               ++ filter (startswith "-") (map strip body))%list
              (Some edits_section))) /\
  (forall (st : locals) (marker : string) (tail : list string),
      marker_of marker = Some score_section \/
      marker_of marker = Some summary_section ->
      forallb plain tail = true ->
      exists st',
        for_lines limit (marker :: tail) st = Ok st' /\
        suggested_edits st' = suggested_edits st) /\
  parse_response limit
"Suggested Edits:
- Add Python experience
- Quantify achievements
Summary: wrap-up"
  = Ok (Analysis.Make None "wrap-up"
          ["- Add Python experience"; "- Quantify achievements"]).
Proof.
  split; [|split; [|reflexivity]].
  - intros st header body M P. exact (for_lines_edits_block _ _ _ _ M P).
  - intros st marker tail [M|M] P.
    + destruct (for_lines_after_score limit st _ _ M P) as [st' [E [_ H]]].
      eauto.
    + exact (for_lines_after_summary limit st _ _ M P).
Qed.

Lemma edits_section_keeps_dash_lines_witness :
  for_lines default_max_str_digits
    ["Suggested Edits:"; "  - first  "; "not an edit"; "- second"] initial
  = Ok (Locals None "" ["- first"; "- second"] (Some edits_section)) /\
  exists st',
    for_lines default_max_str_digits ["Summary: wrap-up"; "- not kept"]
      (Locals None "" ["- first"] (Some edits_section)) = Ok st' /\
    suggested_edits st' = ["- first"].
Proof.
  split.
  - apply (proj1 (edits_section_keeps_dash_lines default_max_str_digits)
             initial "Suggested Edits:"
             ["  - first  "; "not an edit"; "- second"]);
      reflexivity.
  - apply (proj1 (proj2 (edits_section_keeps_dash_lines
                           default_max_str_digits))
             (Locals None "" ["- first"] (Some edits_section))
             "Summary: wrap-up" ["- not kept"]);
      [right|]; reflexivity.
Defined.

(** C5. A line that opens the summary section seeds the summary with the
    trimmed text after the first colon of the line, further colons kept;
    every following plain line, blank ones included, is trimmed and
    appended after a newline; a score or edits marker line ends the
    accumulation.  The lone line "Summary: foo bar" gives no score, the
    summary "foo bar" and no edits; a summary with colons of its own and
    a blank line keeps both. *)
Theorem summary_section_keeps_lines (limit : nat) :
  (forall header : string,
      marker_of header = Some summary_section ->
      exists a rest,
        header = a ++ String ":" rest /\ lacks ":" a = true /\
        forall (st : locals) (body : list string),
          forallb plain body = true ->
          for_lines limit (header :: body) st
          = Ok (Locals (score st)
                  (fold_left
                     (fun acc line => acc ++ String newline (strip line))
                     body (strip rest))
                  (suggested_edits st) (Some summary_section))) /\
  (forall (st : locals) (marker : string) (tail : list string),
      marker_of marker = Some score_section \/
      marker_of marker = Some edits_section ->
      forallb plain tail = true ->
      exists st',
        for_lines limit (marker :: tail) st = Ok st' /\
        summary st' = summary st) /\
  parse_response limit "Summary: foo bar"
  = Ok (Analysis.Make None "foo bar" []) /\
  parse_response limit
"Summary: ratio: 3:1

   second paragraph  "
  = Ok (Analysis.Make None
"ratio: 3:1

second paragraph" []).
Proof.
  split; [|split; [|split; reflexivity]].
  - intros header M.
    destruct (loop_body_summary_line limit _ M) as [a [rest [E H]]].
    exists a, rest. destruct (partition_some _ _ _ _ E) as [Hh Ha].
    repeat split; trivial. intros st body P.
    cbn [for_lines]. rewrite H. cbn [bind].
    now rewrite for_lines_plain_summary by (simpl; auto).
  - intros st marker tail [M|M] P.
    + destruct (for_lines_after_score limit st _ _ M P) as [st' [E [H _]]].
      eauto.
    + rewrite (for_lines_edits_block _ _ _ _ M P).
      eexists; split; reflexivity.
Qed.

Lemma summary_section_keeps_lines_witness :
  (exists a rest,
      "Summary: good: fit" = a ++ String ":" rest /\ lacks ":" a = true /\
      forall (st : locals) (body : list string),
        forallb plain body = true ->
        for_lines default_max_str_digits ("Summary: good: fit" :: body) st
        = Ok (Locals (score st)
                (fold_left
                   (fun acc line => acc ++ String newline (strip line))
                   body (strip rest))
                (suggested_edits st) (Some summary_section))) /\
  exists st',
    for_lines default_max_str_digits ["Suggested Edits:"; "more text"]
      (Locals None "good: fit" [] (Some summary_section)) = Ok st' /\
    summary st' = "good: fit".
Proof.
  split.
  - apply (proj1 (summary_section_keeps_lines default_max_str_digits)
             "Summary: good: fit").
    reflexivity.
  - apply (proj1 (proj2 (summary_section_keeps_lines
                           default_max_str_digits))
             (Locals None "good: fit" [] (Some summary_section))
             "Suggested Edits:" ["more text"]);
      [right|]; reflexivity.
Defined.

(** C6. The section a line opens is found by looking for the three
    markers as substrings, letter case respected, in the order score,
    summary, edits; the first that occurs wins, and a line with none
    leaves the current section as it is. *)
Theorem marker_detection (limit : nat) :
  (forall (st : locals) (line : string),
      exists st',
        loop_body limit st line = Ok st' /\
        (occurs_in "Matching Score:" line ->
         current_section st' = Some score_section) /\
        (~ occurs_in "Matching Score:" line ->
         occurs_in "Summary:" line ->
         current_section st' = Some summary_section) /\
        (~ occurs_in "Matching Score:" line ->
         ~ occurs_in "Summary:" line ->
         occurs_in "Suggested Edits:" line ->
         current_section st' = Some edits_section) /\
        (~ occurs_in "Matching Score:" line ->
         ~ occurs_in "Summary:" line ->
         ~ occurs_in "Suggested Edits:" line ->
         current_section st' = current_section st)) /\
  loop_body limit initial "MATCHING SCORE: 82/100" = Ok initial /\
  loop_body limit initial "summary: fine" = Ok initial /\
  loop_body limit initial "suggested edits:" = Ok initial /\
  loop_body limit initial "Suggested Edits: Summary: Matching Score: 7/100"
  = Ok (Locals None "" [] (Some score_section)) /\
  loop_body limit initial "Suggested Edits: Summary: none"
  = Ok (Locals None "Summary: none" [] (Some summary_section)).
Proof.
  split; [|repeat split; reflexivity].
  intros st line.
  destruct (marker_of line) as [[| |]|] eqn:M.
  - rewrite (loop_body_score_line _ _ _ M).
    apply marker_of_score in M.
    eexists; split; [reflexivity|]. simpl. tauto.
  - destruct (loop_body_summary_line limit _ M) as [a [rest [_ H]]].
    rewrite H. apply marker_of_summary in M.
    eexists; split; [reflexivity|]. simpl. tauto.
  - rewrite (loop_body_edits_line _ _ _ M).
    apply marker_of_edits in M.
    eexists; split; [reflexivity|]. simpl. tauto.
  - rewrite loop_body_plain by (unfold plain; now rewrite M).
    apply marker_of_none in M.
    eexists; split; [reflexivity|].
    destruct (_ && _); [simpl; tauto|].
    destruct (section_is summary_section _); simpl; tauto.
Qed.

Lemma marker_detection_witness :
  exists st',
    loop_body default_max_str_digits initial
      "Overall Summary: the Matching Score: is high" = Ok st' /\
    current_section st' = Some score_section.
Proof.
  destruct (proj1 (marker_detection default_max_str_digits) initial
              "Overall Summary: the Matching Score: is high")
    as [st' [E [H _]]].
  exists st'. split; [exact E|].
  apply H. exists "Overall Summary: the ", " is high". reflexivity.
Defined.

(** C10. With repeated markers the later score and summary win and the
    edits pile up: a score marker line sets the score from that line
    alone (to absent when its number does not convert), a summary marker
    line replaces the summary by its own seed, and no line ever removes
    an edit, so that every further edits section appends its dash lines
    to the same list. *)
Theorem repeated_markers (limit : nat) :
  (forall line : string,
      marker_of line = Some score_section ->
      exists new_score,
        forall st : locals,
          loop_body limit st line
          = Ok (Locals new_score (summary st) (suggested_edits st)
                  (Some score_section))) /\
  (forall line : string,
      marker_of line = Some summary_section ->
      exists seed,
        forall st : locals,
          loop_body limit st line
          = Ok (Locals (score st) seed (suggested_edits st)
                  (Some summary_section))) /\
  (forall (lines : list string) (st : locals),
      exists st' added,
        for_lines limit lines st = Ok st' /\
        suggested_edits st' = (suggested_edits st ++ added)%list) /\
  (forall (st : locals) (header : string) (body : list string),
      marker_of header = Some edits_section ->
      forallb plain body = true ->
      exists st',
        for_lines limit (header :: body) st = Ok st' /\
        suggested_edits st'
        = (suggested_edits st
           ++ filter (startswith "-") (map strip body))%list) /\
  parse_response limit
"Matching Score: 82/100
Matching Score: 40/100"
  = Ok (Analysis.Make (Some 40%Z) "" []) /\
  parse_response limit
"Matching Score: 82/100
Matching Score: N/A"
  = Ok (Analysis.Make None "" []) /\
  parse_response limit
"Summary: first
more of the first
Summary: second"
  = Ok (Analysis.Make None "second" []) /\
  parse_response limit
"Suggested Edits:
- one
Summary: between
Suggested Edits:
- two"
  = Ok (Analysis.Make None "between" ["- one"; "- two"]).
Proof.
  split; [|split; [|split; [|split; [|repeat split; reflexivity]]]].
  - intros line M. eexists. intros st.
    exact (loop_body_score_line limit st line M).
  - intros line M.
    destruct (loop_body_summary_line limit _ M) as [a [rest [_ H]]].
    exists (strip rest). exact H.
  - intros lines st.
    destruct (for_lines_total limit lines st) as [st' E].
    destruct (for_lines_edits_grow limit _ _ _ E) as [added H].
    exists st', added. now split.
  - intros st header body M P.
    rewrite (for_lines_edits_block _ _ _ _ M P).
    eexists; split; reflexivity.
Qed.

Lemma repeated_markers_witness :
  (exists new_score,
      forall st : locals,
        loop_body default_max_str_digits st "Matching Score: N/A"
        = Ok (Locals new_score (summary st) (suggested_edits st)
                (Some score_section))) /\
  (exists seed,
      forall st : locals,
        loop_body default_max_str_digits st "Summary: second"
        = Ok (Locals (score st) seed (suggested_edits st)
                (Some summary_section))) /\
  (exists st',
      for_lines default_max_str_digits ["Suggested Edits:"; "- two"]
        (Locals None "between" ["- one"] (Some summary_section)) = Ok st' /\
      suggested_edits st' = ["- one"; "- two"]).
Proof.
  pose proof (repeated_markers default_max_str_digits) as [S [M [_ [E _]]]].
  split; [|split].
  - apply S. reflexivity.
  - apply M. reflexivity.
  - apply (E (Locals None "between" ["- one"] (Some summary_section))
             "Suggested Edits:" ["- two"]); reflexivity.
Defined.

(* ================================================================== *)
(** * The prompt                                                        *)
(* ================================================================== *)

Lemma formatted_prompt_value (resume_text jd_text : string) :
  formatted_prompt resume_text jd_text
  = Ok (prompt_head ++ resume_text ++ prompt_middle ++ jd_text
        ++ prompt_tail).
Proof. vm_compute. reflexivity. Qed.

(** C7. The prompt is the fixed template with the resume text and the
    job-description text put in place of its two fields, character for
    character; the rendering looks at neither text, so it succeeds for
    texts of every length and content. *)
Theorem formatted_prompt_substitutes (resume_text jd_text : string) :
  prompt_template
  = prompt_head ++ "{resume}" ++ prompt_middle ++ "{job_description}"
    ++ prompt_tail /\
  formatted_prompt resume_text jd_text
  = Ok (prompt_head ++ resume_text ++ prompt_middle ++ jd_text
        ++ prompt_tail).
Proof. split; [reflexivity | apply formatted_prompt_value]. Qed.

(** The whole function: the model is asked once, with the rendered
    prompt, and its answer is parsed; the function raises only when the
    call to the model does. *)
Lemma get_matching_score_summary_and_edits_runs
  (limit : nat) (llm_invoke : string -> result string)
  (resume_text jd_text : string) :
  let prompt :=
    prompt_head ++ resume_text ++ prompt_middle ++ jd_text ++ prompt_tail in
  match llm_invoke prompt with
  | Ok response_text =>
      exists r,
        parse_response limit response_text = Ok r /\
        get_matching_score_summary_and_edits limit llm_invoke
          resume_text jd_text = Ok r
  | Raise e =>
      get_matching_score_summary_and_edits limit llm_invoke
        resume_text jd_text = Raise e
  end.
Proof.
  intros prompt. unfold get_matching_score_summary_and_edits.
  rewrite formatted_prompt_value. cbn [bind]. fold prompt.
  destruct (llm_invoke prompt) as [response_text|e]; cbn [bind];
    [|reflexivity].
  unfold parse_response.
  destruct (for_lines_total limit (split newline response_text) initial)
    as [st ->].
  cbn [bind]. eauto.
Qed.

(* ================================================================== *)
(** * The vector store                                                  *)
(* ================================================================== *)

Lemma fold_left_insert {vector : Type} (entries index : list (document * vector)) :
  fold_left (insert vector) entries index = (index ++ entries)%list.
Proof.
  revert index; induction entries as [|e es IH]; intros index; simpl.
  - now rewrite app_nil_r.
  - rewrite IH. unfold insert. now rewrite <- app_assoc.
Qed.

(** C8. The store of [get_rag_chain] holds the chunks of the resume and
    then the chunks of the job description, each text split on its own by
    the same splitter (chunk size 1000, overlap 200) and each chunk
    paired with its embedding: it is what inserting the resume's pairs
    one by one, and then the job description's, into one empty index
    gives. *)
Theorem vectorstore_insertion_order
  (split_text : text_splitter -> string -> list string)
  (vector : Type) (embed : string -> vector)
  (resume_content jd_content : string) :
  let splitter := RecursiveCharacterTextSplitter 1000 200 in
  let entry := fun chunk : string => (Document chunk, embed chunk) in
  get_rag_chain_vectorstore split_text vector embed resume_content jd_content
  = (map entry (split_text splitter resume_content)
     ++ map entry (split_text splitter jd_content))%list /\
  get_rag_chain_vectorstore split_text vector embed resume_content jd_content
  = fold_left (insert vector)
      (map entry (split_text splitter jd_content))
      (fold_left (insert vector)
         (map entry (split_text splitter resume_content)) []%list).
Proof.
  intros splitter entry.
  assert (E : get_rag_chain_vectorstore split_text vector embed
                resume_content jd_content
              = (map entry (split_text splitter resume_content)
                 ++ map entry (split_text splitter jd_content))%list).
  { unfold get_rag_chain_vectorstore, from_documents, create_documents.
    rewrite fold_left_insert. simpl. rewrite !app_nil_r.
    rewrite map_app, !map_map. reflexivity. }
  split; [exact E|].
  rewrite E, !fold_left_insert. reflexivity.
Qed.

(* ================================================================== *)
(** * Loading a document                                                *)
(* ================================================================== *)

Lemma last_char_app (a b : string) :
  b <> "" -> last_char (a ++ b) = last_char b.
Proof.
  intros Hb. induction a as [|c a IH]; [reflexivity|].
  simpl. rewrite IH. destruct (a ++ b) eqn:E; [|reflexivity].
  destruct a; simpl in E; [contradiction | discriminate].
Qed.

Lemma ends_with_last (suffix s : string) :
  suffix <> "" -> ends_with suffix s -> last_char s = last_char suffix.
Proof. intros Hs [pre ->]. now apply last_char_app. Qed.

(** Two suffixes with different last characters exclude each other. *)
Lemma other_suffix (suffix other s : string) :
  suffix <> "" -> other <> "" -> last_char suffix <> last_char other ->
  ends_with suffix s -> endswith other s = false.
Proof.
  intros Hs Ho Hne H. apply not_true_is_false. intros E.
  apply endswith_true_iff in E.
  apply (ends_with_last _ _ Hs) in H. apply (ends_with_last _ _ Ho) in E.
  congruence.
Qed.

(** C9. [load_document] picks the PDF loader for a path that ends in
    ".pdf", the DOCX loader for one that ends in ".docx", the text loader
    for one that ends in ".txt", and returns what that loader's [load]
    returns; for every other path it raises the unsupported-file-type
    error and calls no loader. *)
Theorem load_document_by_suffix
  (documents : Type) (loader_load : loader -> result documents)
  (file_path : string) :
  (ends_with ".pdf" file_path ->
   load_document documents loader_load file_path
   = loader_load (PyPDFLoader file_path)) /\
  (ends_with ".docx" file_path ->
   load_document documents loader_load file_path
   = loader_load (Docx2txtLoader file_path)) /\
  (ends_with ".txt" file_path ->
   load_document documents loader_load file_path
   = loader_load (TextLoader file_path)) /\
  (~ ends_with ".pdf" file_path ->
   ~ ends_with ".docx" file_path ->
   ~ ends_with ".txt" file_path ->
   load_document documents loader_load file_path
   = Raise (ValueError "Unsupported file type")).
Proof.
  unfold load_document. repeat split.
  - intros H. apply endswith_true_iff in H. now rewrite H.
  - intros H.
    rewrite (other_suffix ".docx" ".pdf" file_path) by (discriminate || easy).
    apply endswith_true_iff in H. now rewrite H.
  - intros H.
    rewrite (other_suffix ".txt" ".pdf" file_path) by (discriminate || easy).
    rewrite (other_suffix ".txt" ".docx" file_path) by (discriminate || easy).
    apply endswith_true_iff in H. now rewrite H.
  - intros Hpdf Hdocx Htxt.
    rewrite <- endswith_true_iff in Hpdf, Hdocx, Htxt.
    apply not_true_is_false in Hpdf, Hdocx, Htxt.
    now rewrite Hpdf, Hdocx, Htxt.
Qed.

Lemma load_document_by_suffix_witness :
  load_document (list string) (fun _ => Ok ["page"]) "cv.final.docx"
  = Ok ["page"] /\
  load_document (list string) (fun _ => Ok ["page"]) "cv.PDF"
  = Raise (ValueError "Unsupported file type").
Proof.
  split.
  - apply (proj1 (proj2 (load_document_by_suffix (list string)
                           (fun _ => Ok ["page"]) "cv.final.docx"))).
    exists "cv.final". reflexivity.
  - apply (proj2 (proj2 (proj2 (load_document_by_suffix (list string)
                                  (fun _ => Ok ["page"]) "cv.PDF"))));
      rewrite <- endswith_true_iff; discriminate.
Defined.

(* ================================================================== *)
(** * More facts about splitting and occurrence                         *)
(* ================================================================== *)

Lemma fields_lacks (sep : ascii) (a : string) :
  lacks sep a = true -> fields sep a = (a, []%list).
Proof.
  induction a as [|c a IH]; simpl; [reflexivity|].
  intros H. apply andb_true_iff in H as [Hc Ha].
  rewrite (IH Ha). apply negb_true_iff in Hc. now rewrite Hc.
Qed.

Lemma split_lacks (sep : ascii) (a : string) :
  lacks sep a = true -> split sep a = [a]%list.
Proof. intros H. unfold split. now rewrite (fields_lacks _ _ H). Qed.

Lemma fields_append_sep (sep : ascii) (a b : string) :
  fields sep (a ++ String sep b)
  = (fst (fields sep a), (snd (fields sep a) ++ split sep b)%list).
Proof.
  unfold split. induction a as [|c a IH]; simpl.
  - rewrite Ascii.eqb_refl. now destruct (fields sep b).
  - rewrite IH. destruct (fields sep a) as [h t], (fields sep b) as [h' t'].
    simpl. now destruct (Ascii.eqb c sep).
Qed.

(** The pieces of [a], then the pieces of [b]. *)
Lemma split_append_sep (sep : ascii) (a b : string) :
  split sep (a ++ String sep b) = (split sep a ++ split sep b)%list.
Proof.
  unfold split at 1 2. rewrite fields_append_sep.
  now destruct (fields sep a).
Qed.

Lemma split_join (sep : ascii) (x : string) (xs : list string) :
  Forall (fun l => lacks sep l = true) (x :: xs) ->
  split sep (String.concat (String sep "") (x :: xs)) = (x :: xs)%list.
Proof.
  revert x; induction xs as [|y ys IH]; intros x H; inversion_clear H.
  - simpl. now apply split_lacks.
  - change (String.concat (String sep "") (x :: y :: ys))
      with (x ++ String sep (String.concat (String sep "") (y :: ys))).
    rewrite split_app by assumption. now rewrite IH.
Qed.

Lemma occurs_in_trans (a b c : string) :
  occurs_in a b -> occurs_in b c -> occurs_in a c.
Proof.
  intros [p1 [q1 ->]] [p2 [q2 ->]].
  exists (p2 ++ p1), (q1 ++ q2). now rewrite !append_assoc.
Qed.

Lemma fields_prefix (sep : ascii) (s : string) :
  exists post, s = fst (fields sep s) ++ post.
Proof.
  induction s as [|c s [post IH]]; simpl.
  - now exists "".
  - destruct (fields sep s) as [h t]. simpl in IH.
    destruct (Ascii.eqb c sep); simpl.
    + now exists (String c s).
    + exists post. now rewrite IH at 1.
Qed.

(** Every piece of a split occurs in the string. *)
Lemma split_occurs (sep : ascii) (s l : string) :
  In l (split sep s) -> occurs_in l s.
Proof.
  unfold split. revert l; induction s as [|c s IH]; intros l.
  - simpl. intros [<-|[]]. now exists "", "".
  - simpl. destruct (fields_prefix sep s) as [post P].
    destruct (fields sep s) as [h t]. simpl in P.
    destruct (Ascii.eqb c sep).
    + intros [<-|H].
      * now exists "", (String c s).
      * destruct (IH l H) as [p [q E]].
        exists (String c p), q. simpl. now rewrite E.
    + intros [<-|H].
      * exists "", post. simpl. now rewrite P at 1.
      * destruct (IH l (or_intror H)) as [p [q E]].
        exists (String c p), q. simpl. now rewrite E.
Qed.

Lemma marker_free_plain (text line : string) :
  marker_free text -> occurs_in line text -> plain line = true.
Proof.
  intros [F1 [F2 F3]] Hocc. unfold plain.
  replace (marker_of line) with (@None section); [reflexivity|].
  symmetry. apply marker_of_none.
  repeat split; intros H; [apply F1 | apply F2 | apply F3];
    exact (occurs_in_trans _ _ _ H Hocc).
Qed.

Lemma marker_free_lines (text : string) :
  marker_free text -> forallb plain (split newline text) = true.
Proof.
  intros F. apply forallb_forall. intros line H.
  exact (marker_free_plain _ _ F (split_occurs _ _ _ H)).
Qed.

(* ================================================================== *)
(** * The response parser: further properties                           *)
(* ================================================================== *)

(** X1. A response in which no marker occurs gives the empty result, and
    whatever stands before the first line with a marker is ignored: a
    marker-free text put in front of a response, on lines of its own,
    does not change the result. *)
Theorem text_before_first_marker_ignored (limit : nat) :
  (forall text : string,
      marker_free text ->
      parse_response limit text = Ok (Analysis.Make None "" [])) /\
  (forall preamble rest : string,
      marker_free preamble ->
      parse_response limit (preamble ++ String newline rest)
      = parse_response limit rest).
Proof.
  split.
  - intros text F. unfold parse_response.
    rewrite for_lines_plain_idle;
      [reflexivity | now apply marker_free_lines | now right].
  - intros preamble rest F. unfold parse_response.
    rewrite split_append_sep, for_lines_app.
    rewrite for_lines_plain_idle;
      [reflexivity | now apply marker_free_lines | now right].
Qed.

Lemma text_before_first_marker_ignored_witness :
  parse_response default_max_str_digits "Here is my assessment, no score"
  = Ok (Analysis.Make None "" []) /\
  parse_response default_max_str_digits
"Sure! Here is the analysis.
- a dash line before any section
Matching Score: 61/100"
  = parse_response default_max_str_digits "Matching Score: 61/100".
Proof.
  split.
  - apply (proj1 (text_before_first_marker_ignored default_max_str_digits)).
    repeat split; apply contains_false_iff; reflexivity.
  - apply (proj2 (text_before_first_marker_ignored default_max_str_digits)
             "Sure! Here is the analysis.
- a dash line before any section").
    repeat split; apply contains_false_iff; reflexivity.
Defined.

Lemma subseq_refl {A : Type} (xs : list A) : subseq xs xs.
Proof. induction xs; constructor; assumption. Qed.

Lemma subseq_app {A : Type} (xs ys xs' ys' : list A) :
  subseq xs ys -> subseq xs' ys' -> subseq (xs ++ xs') (ys ++ ys').
Proof.
  intros H H'. induction H; simpl; try constructor; assumption.
Qed.

(** What one line adds to the edits is nothing, or the trimmed line when
    it is a plain dash line. *)
Lemma loop_body_adds (limit : nat) (st st' : locals) (line : string) :
  loop_body limit st line = Ok st' ->
  exists added,
    suggested_edits st' = (suggested_edits st ++ added)%list /\
    subseq added (dash_lines (filter plain [line])).
Proof.
  destruct (marker_of line) as [[| |]|] eqn:M.
  - rewrite (loop_body_score_line _ _ _ M). intros [= <-].
    exists []%list. simpl. rewrite app_nil_r. split; [reflexivity|].
    unfold plain. rewrite M. constructor.
  - destruct (loop_body_summary_line limit _ M) as [a [rest [_ H]]].
    rewrite H. intros [= <-]. exists []%list. simpl. rewrite app_nil_r.
    split; [reflexivity|]. unfold plain. rewrite M. constructor.
  - rewrite (loop_body_edits_line _ _ _ M). intros [= <-].
    exists []%list. simpl. rewrite app_nil_r. split; [reflexivity|].
    unfold plain. rewrite M. constructor.
  - assert (P : plain line = true) by (unfold plain; now rewrite M).
    rewrite (loop_body_plain _ _ _ P). simpl. rewrite P.
    unfold dash_lines. simpl.
    destruct (section_is edits_section (current_section st)); simpl.
    + destruct (startswith "-" (strip line)); simpl.
      * intros [= <-]. exists [strip line]. split; [reflexivity|].
        apply subseq_refl.
      * destruct (section_is summary_section _); intros [= <-];
          exists []%list; simpl; rewrite app_nil_r;
          (split; [reflexivity | constructor]).
    + destruct (section_is summary_section _); intros [= <-];
        exists []%list; simpl; rewrite app_nil_r;
        (split; [reflexivity|]);
        destruct (startswith "-" (strip line)); repeat constructor.
Qed.

Lemma for_lines_adds (limit : nat) (lines : list string) (st st' : locals) :
  for_lines limit lines st = Ok st' ->
  exists added,
    suggested_edits st' = (suggested_edits st ++ added)%list /\
    subseq added (dash_lines (filter plain lines)).
Proof.
  revert st; induction lines as [|x xs IH]; intros st; cbn [for_lines].
  - intros [= <-]. exists []%list. rewrite app_nil_r. split; constructor.
  - destruct (loop_body limit st x) as [st1|] eqn:E; cbn [bind];
      [|discriminate].
    intros H. destruct (loop_body_adds _ _ _ _ E) as [a1 [E1 S1]].
    destruct (IH _ H) as [a2 [E2 S2]].
    exists (a1 ++ a2)%list. split; [now rewrite E2, E1, app_assoc|].
    change (x :: xs)%list with ([x] ++ xs)%list.
    unfold dash_lines in *. rewrite filter_app, map_app, filter_app.
    now apply subseq_app.
Qed.

(** X2. The edits of a result are trimmed dash lines of the response and
    nothing else: they form, in order, a selection of the lines of the
    response in which no marker occurs and whose trimmed text starts with
    a dash. *)
Theorem edits_are_dash_lines (limit : nat) (text : string) :
  exists r,
    parse_response limit text = Ok r /\
    subseq (Analysis.suggested_edits r)
      (filter (startswith "-")
         (map strip (filter plain (split newline text)))).
Proof.
  unfold parse_response.
  destruct (for_lines_total limit (split newline text) initial) as [st E].
  rewrite E. cbn [bind]. eexists; split; [reflexivity|].
  destruct (for_lines_adds _ _ _ _ E) as [added [H S]].
  simpl in *. now subst.
Qed.

(** *** White space at the ends of a line *)

Lemma blank_app (a b : string) : blank (a ++ b) = blank a && blank b.
Proof.
  induction a as [|c a IH]; simpl; [reflexivity|].
  now rewrite IH, andb_assoc.
Qed.

Lemma blank_lacks (sep : ascii) (s : string) :
  isspace sep = false -> blank s = true -> lacks sep s = true.
Proof.
  intros Hsep. induction s as [|c s IH]; simpl; [reflexivity|].
  intros H. apply andb_true_iff in H as [Hc Hs]. rewrite (IH Hs).
  destruct (Ascii.eqb_spec c sep) as [->|]; [congruence | reflexivity].
Qed.

Lemma lstrip_blank (s : string) : blank s = true -> lstrip s = "".
Proof.
  induction s as [|c s IH]; simpl; [reflexivity|].
  intros H. apply andb_true_iff in H as [Hc Hs]. now rewrite Hc, IH.
Qed.

Lemma rstrip_blank (s : string) : blank s = true -> rstrip s = "".
Proof.
  induction s as [|c s IH]; simpl; [reflexivity|].
  intros H. apply andb_true_iff in H as [Hc Hs]. now rewrite IH, Hc.
Qed.

Lemma lstrip_app (a b : string) :
  lstrip (a ++ b) = if blank a then lstrip b else lstrip a ++ b.
Proof.
  induction a as [|c a IH]; simpl; [reflexivity|].
  destruct (isspace c); simpl; [exact IH | reflexivity].
Qed.

Lemma rstrip_app_blank (s post : string) :
  blank post = true -> rstrip (s ++ post) = rstrip s.
Proof.
  intros H. induction s as [|c s IH]; simpl.
  - now apply rstrip_blank.
  - now rewrite IH.
Qed.

Lemma strip_app_blank (s post : string) :
  blank post = true -> strip (s ++ post) = strip s.
Proof.
  intros H. unfold strip. rewrite lstrip_app.
  destruct (blank s) eqn:B.
  - now rewrite (lstrip_blank _ H), (lstrip_blank _ B).
  - now apply rstrip_app_blank.
Qed.

Lemma strip_padded (pre s post : string) :
  blank pre = true -> blank post = true ->
  strip (pre ++ s ++ post) = strip s.
Proof.
  intros Hpre Hpost. rewrite <- (strip_app_blank s post Hpost).
  unfold strip. now rewrite lstrip_app, Hpre.
Qed.

Lemma prefix_blank (m post : string) :
  prefix m post = true -> blank post = true -> blank m = true.
Proof.
  intros H B. apply prefix_true_iff in H as [r ->].
  rewrite blank_app in B. now apply andb_true_iff in B as [B _].
Qed.

Lemma blank_not_solid (m : string) :
  m <> "" -> blank m = true -> ends_solid m = false.
Proof.
  unfold ends_solid. induction m as [|c m IH]; [congruence|].
  intros _ B. simpl in B. apply andb_true_iff in B as [Bc Bm].
  destruct m as [|d m]; simpl.
  - now rewrite Bc.
  - apply IH; [discriminate | exact Bm].
Qed.

Lemma ends_solid_tail (a : ascii) (m : string) :
  ends_solid (String a m) = true -> ends_solid m = true.
Proof. unfold ends_solid. now destruct m. Qed.

Lemma prefix_app_blank (m s post : string) :
  ends_solid m = true -> blank post = true ->
  prefix m (s ++ post) = prefix m s.
Proof.
  intros Hm Hpost. revert m Hm; induction s as [|b s IH]; intros m Hm.
  - destruct m as [|a m]; [now destruct post|].
    simpl (prefix _ ""). cbn [append].
    destruct (prefix (String a m) post) eqn:P; [|reflexivity].
    pose proof (prefix_blank _ _ P Hpost) as B.
    rewrite (blank_not_solid (String a m)) in Hm; [discriminate| |exact B].
    discriminate.
  - destruct m as [|a m]; [reflexivity|]. simpl.
    destruct (ascii_dec a b); [|reflexivity].
    apply IH. exact (ends_solid_tail _ _ Hm).
Qed.

Lemma contains_blank (m post : string) :
  m <> "" -> ends_solid m = true -> blank post = true ->
  contains m post = false.
Proof.
  intros Hne Hm. induction post as [|d post IH]; intros B.
  - destruct m; [congruence | reflexivity].
  - cbn [contains].
    destruct (prefix m (String d post)) eqn:P.
    + pose proof (prefix_blank _ _ P B) as Bm.
      rewrite (blank_not_solid m Hne Bm) in Hm. discriminate.
    + simpl in B. apply andb_true_iff in B as [_ B]. now apply IH.
Qed.

Lemma contains_app_blank (m s post : string) :
  m <> "" -> ends_solid m = true -> blank post = true ->
  contains m (s ++ post) = contains m s.
Proof.
  intros Hne Hm Hpost. induction s as [|c s IH].
  - cbn [append]. rewrite (contains_blank _ _ Hne Hm Hpost).
    destruct m; [congruence | reflexivity].
  - cbn [append contains].
    change (String c (s ++ post)) with (String c s ++ post).
    now rewrite prefix_app_blank, IH.
Qed.

(** A marker starts with a letter: white space in front of a line adds no
    occurrence. *)
Lemma contains_blank_app (m pre s : string) :
  ends_solid (substring 0 1 m) = true -> m <> "" -> blank pre = true ->
  contains m (pre ++ s) = contains m s.
Proof.
  intros Hm Hne. induction pre as [|d pre IH]; intros B; [reflexivity|].
  simpl in B. apply andb_true_iff in B as [Bd B].
  cbn [append contains]. rewrite (IH B).
  destruct m as [|a m]; [congruence|].
  simpl. destruct (ascii_dec a d) as [->|]; [|reflexivity].
  unfold ends_solid in Hm. simpl in Hm.
  replace (substring 0 0 m) with "" in Hm by now destruct m.
  simpl in Hm. now rewrite Bd in Hm.
Qed.

Lemma contains_padded (m pre s post : string) :
  m <> "" -> ends_solid (substring 0 1 m) = true -> ends_solid m = true ->
  blank pre = true -> blank post = true ->
  contains m (pre ++ s ++ post) = contains m s.
Proof.
  intros Hne Hhead Hlast Hpre Hpost.
  rewrite contains_blank_app by assumption.
  now apply contains_app_blank.
Qed.

Lemma partition_lacks (sep : ascii) (s : string) :
  lacks sep s = true -> partition sep s = (s, None).
Proof.
  induction s as [|c s IH]; simpl; [reflexivity|].
  intros H. apply andb_true_iff in H as [Hc Hs].
  apply negb_true_iff in Hc. now rewrite Hc, (IH Hs).
Qed.

Lemma partition_none (sep : ascii) (s a : string) :
  partition sep s = (a, None) -> lacks sep s = true.
Proof.
  destruct (lacks sep s) eqn:L; [reflexivity|].
  destruct (first_sep _ _ L) as [h [t [-> Lh]]].
  rewrite (partition_app _ _ _ Lh). discriminate.
Qed.

Lemma partition_app_r (sep : ascii) (s post a rest : string) :
  partition sep s = (a, Some rest) ->
  partition sep (s ++ post) = (a, Some (rest ++ post)).
Proof.
  intros H. apply partition_some in H as [-> L].
  rewrite append_assoc. cbn [append]. now apply partition_app.
Qed.

Lemma partition_app_l (sep : ascii) (pre s : string) :
  lacks sep pre = true ->
  partition sep (pre ++ s)
  = (pre ++ fst (partition sep s), snd (partition sep s)).
Proof.
  induction pre as [|c pre IH]; simpl; intros H.
  - now destruct (partition sep s).
  - apply andb_true_iff in H as [Hc Hp]. apply negb_true_iff in Hc.
    now rewrite Hc, (IH Hp).
Qed.

Lemma strip_before_app_blank (sep : ascii) (rest post : string) :
  isspace sep = false -> blank post = true ->
  strip (before sep (rest ++ post)) = strip (before sep rest).
Proof.
  intros Hsep Hpost. unfold before.
  destruct (partition sep rest) as [h [t|]] eqn:P.
  - now rewrite (partition_app_r _ _ post _ _ P).
  - pose proof (partition_none _ _ _ P) as L.
    rewrite (partition_lacks _ _ L) in P. injection P as <-.
    rewrite partition_lacks; [now apply strip_app_blank|].
    rewrite lacks_app, L. now apply blank_lacks.
Qed.

Section Padding.

Variable limit : nat.
Variables pre post : string.
Hypothesis blank_pre : blank pre = true.
Hypothesis blank_post : blank post = true.

Lemma partition_padded (line : string) :
  partition ":" (pre ++ line ++ post)
  = match partition ":" line with
    | (a, Some rest) => (pre ++ a, Some (rest ++ post))
    | (a, None) => (pre ++ line ++ post, None)
    end.
Proof.
  destruct (partition ":" line) as [a [rest|]] eqn:P.
  - rewrite partition_app_l by now apply blank_lacks.
    now rewrite (partition_app_r _ _ post _ _ P).
  - apply partition_lacks. pose proof (partition_none _ _ _ P) as L.
    rewrite !lacks_app, L, !blank_lacks; auto.
Qed.

Lemma score_attempt_padded (line : string) :
  score_attempt limit (pre ++ line ++ post) = score_attempt limit line.
Proof.
  pose proof (partition_padded line) as PP.
  destruct (partition ":" line) as [a [rest|]] eqn:P.
  - rewrite (score_attempt_reads _ _ _ _ PP), (score_attempt_reads _ _ _ _ P).
    now rewrite strip_before_app_blank.
  - pose proof (partition_none _ _ _ P) as L.
    pose proof (partition_none _ _ _ PP) as L'.
    unfold score_attempt. now rewrite (split_lacks _ _ L), (split_lacks _ _ L').
Qed.

Lemma summary_seed_padded (line : string) (k : string -> locals) :
  (part <- getitem (split1 ":" (pre ++ line ++ post)) 1 ;; Ok (k (strip part)))
  = (part <- getitem (split1 ":" line) 1 ;; Ok (k (strip part))).
Proof.
  unfold split1. rewrite partition_padded.
  destruct (partition ":" line) as [a [rest|]]; [|reflexivity].
  simpl. now rewrite strip_app_blank.
Qed.

(** White space at the two ends of a line does not change what the loop
    body does with it. *)
Lemma loop_body_padded (st : locals) (line : string) :
  loop_body limit st (pre ++ line ++ post) = loop_body limit st line.
Proof.
  unfold loop_body, score_of_line.
  rewrite !contains_padded, score_attempt_padded, strip_padded
    by (assumption || reflexivity || discriminate).
  destruct (contains "Matching Score:" line); [reflexivity|].
  destruct (contains "Summary:" line); [|reflexivity].
  exact (summary_seed_padded line
           (fun seed => Locals (score st) seed (suggested_edits st)
                          (Some summary_section))).
Qed.

End Padding.

Lemma for_lines_padded (limit : nat) (lines lines' : list string) :
  Forall2 padded lines lines' ->
  forall st, for_lines limit lines' st = for_lines limit lines st.
Proof.
  induction 1 as [|l l' ls ls' [pre [post [Hpre [Hpost ->]]]] _ IH];
    intros st; [reflexivity|].
  cbn [for_lines]. rewrite (loop_body_padded limit pre post Hpre Hpost).
  destruct (loop_body limit st l); cbn [bind]; [apply IH | reflexivity].
Qed.

Lemma parse_response_join (limit : nat) (lines : list string) :
  Forall (fun l => lacks newline l = true) lines ->
  parse_response limit (join_lines lines)
  = (st <- for_lines limit (match lines with
                            | []%list => [""]%list
                            | _ => lines
                            end) initial ;;
     Ok (result_of st)).
Proof.
  intros H. unfold parse_response, join_lines.
  destruct lines as [|x xs]; [reflexivity|].
  now rewrite (split_join _ _ _ H).
Qed.

(** X3. White space at the start and at the end of the lines of a
    response never changes the result: two responses whose lines differ
    only by such padding are parsed alike. *)
Theorem padding_ignored (limit : nat) (lines lines' : list string) :
  Forall2 padded lines lines' ->
  Forall (fun l => lacks newline l = true) lines ->
  Forall (fun l => lacks newline l = true) lines' ->
  parse_response limit (join_lines lines')
  = parse_response limit (join_lines lines).
Proof.
  intros P L L'. rewrite !parse_response_join by assumption.
  destruct P as [|l l' ls ls' Pl Pls]; [reflexivity|].
  now rewrite (for_lines_padded limit (l :: ls) (l' :: ls'))
    by (constructor; assumption).
Qed.

Lemma padding_ignored_witness :
  parse_response default_max_str_digits
    (join_lines ["    Matching Score: 82/100  "; "  Summary: fine ";
                 "    Suggested Edits:"; "      - one  "])
  = parse_response default_max_str_digits
      (join_lines ["Matching Score: 82/100"; "Summary: fine";
                   "Suggested Edits:"; "- one"]).
Proof.
  apply padding_ignored.
  - repeat constructor.
    + exists "    ", "  ". repeat split.
    + exists "  ", " ". repeat split.
    + exists "    ", "". repeat split.
    + exists "      ", "  ". repeat split.
  - repeat constructor.
  - repeat constructor.
Defined.

Lemma crlf_join (lines : list string) :
  String.concat (String carriage_return (String newline "")) lines
  = join_lines (crlf_lines lines).
Proof.
  unfold join_lines. induction lines as [|x [|y ys] IH]; try reflexivity.
  change (crlf_lines (x :: y :: ys))
    with ((x ++ String carriage_return "")%string :: crlf_lines (y :: ys))%list.
  change (String.concat ?sep (x :: y :: ys))
    with (x ++ sep ++ String.concat sep (y :: ys)).
  rewrite IH. destruct (crlf_lines (y :: ys)) eqn:E.
  - destruct ys; discriminate.
  - cbn [String.concat]. rewrite !append_assoc. reflexivity.
Qed.

Lemma crlf_padded (lines : list string) :
  Forall2 padded lines (crlf_lines lines).
Proof.
  induction lines as [|x [|y ys] IH]; [constructor| |].
  - repeat constructor. exists "", "". repeat split.
    simpl. now rewrite append_nil_r.
  - change (crlf_lines (x :: y :: ys))
      with ((x ++ String carriage_return "")%string :: crlf_lines (y :: ys))%list.
    constructor; [|exact IH].
    exists "", (String carriage_return ""). repeat split.
Qed.

Lemma crlf_lacks (lines : list string) :
  Forall (fun l => lacks newline l = true) lines ->
  Forall (fun l => lacks newline l = true) (crlf_lines lines).
Proof.
  induction lines as [|x [|y ys] IH]; intros H; [constructor|exact H|].
  change (crlf_lines (x :: y :: ys))
    with ((x ++ String carriage_return "")%string :: crlf_lines (y :: ys))%list.
  inversion_clear H. constructor; [|now apply IH].
  rewrite lacks_app. now rewrite H0.
Qed.

(** X4. Line ends do not matter: a response whose lines are separated by
    a carriage return and a newline is parsed like the same lines
    separated by a newline alone. *)
Theorem crlf_as_lf (limit : nat) (lines : list string) :
  Forall (fun l => lacks newline l = true) lines ->
  parse_response limit
    (String.concat (String carriage_return (String newline "")) lines)
  = parse_response limit (join_lines lines).
Proof.
  intros L. rewrite crlf_join.
  rewrite !parse_response_join by (try apply crlf_lacks; assumption).
  pose proof (crlf_padded lines) as P.
  destruct P as [|l l' ls ls' Pl Pls]; [reflexivity|].
  now rewrite (for_lines_padded limit (l :: ls) (l' :: ls'))
    by (constructor; assumption).
Qed.

Lemma crlf_as_lf_witness :
  parse_response default_max_str_digits
    (String.concat (String carriage_return (String newline ""))
       ["Matching Score: 82/100"; "Summary: fine"; "more"])
  = parse_response default_max_str_digits
      (join_lines ["Matching Score: 82/100"; "Summary: fine"; "more"]).
Proof. apply crlf_as_lf. repeat constructor. Defined.

(** *** Numerals *)

Lemma digit_char_facts (d : nat) :
  d < 10 ->
  in_range 48 57 (digit_char d) = true /\
  digit_of (digit_char d) = Some (Z.of_nat d) /\
  isspace (digit_char d) = false /\
  Ascii.eqb (digit_char d) "/" = false /\
  Ascii.eqb (digit_char d) ":" = false /\
  Ascii.eqb (digit_char d) newline = false.
Proof.
  intros H.
  do 10 (destruct d as [|d]; [repeat split; reflexivity|]).
  lia.
Qed.

Lemma numeral_lacks (sep : ascii) (ds : list nat) :
  Forall (fun d => d < 10) ds ->
  in_range 48 57 sep = false ->
  lacks sep (numeral ds) = true.
Proof.
  intros H Hsep. induction H as [|d ds Hd _ IH]; [reflexivity|].
  cbn [numeral lacks]. rewrite IH, andb_true_r.
  destruct (Ascii.eqb_spec (digit_char d) sep) as [<-|]; [|reflexivity].
  destruct (digit_char_facts d Hd) as [R _]. congruence.
Qed.

Lemma digits_numeral (ds : list nat) (after_digit : bool) (acc : Z) (n : nat) :
  Forall (fun d => d < 10) ds ->
  after_digit = true \/ ds <> []%list ->
  digits after_digit acc n (numeral ds)
  = Some (fold_left (fun a d => (10 * a + Z.of_nat d)%Z) ds acc,
          n + List.length ds).
Proof.
  intros H. revert after_digit acc n.
  induction H as [|d ds Hd _ IH]; intros b acc n Hb.
  - destruct Hb as [->|Hb]; [|congruence]. simpl. now rewrite Nat.add_0_r.
  - destruct (digit_char_facts d Hd) as [_ [D _]].
    cbn [numeral digits]. rewrite D, IH by now left.
    simpl. now rewrite Nat.add_succ_r.
Qed.

Lemma int_rstrip_numeral (ds : list nat) :
  Forall (fun d => d < 10) ds -> int_rstrip (numeral ds) = numeral ds.
Proof.
  induction 1 as [|d ds Hd _ IH]; [reflexivity|].
  cbn [numeral int_rstrip]. rewrite IH.
  destruct (numeral ds); [|reflexivity].
  do 10 (destruct d as [|d]; [reflexivity|]). lia.
Qed.

(** [int] of a numeral with neither sign, underscore nor white space. *)
Lemma int_numeral (limit : nat) (ds : list nat) :
  Forall (fun d => d < 10) ds -> ds <> []%list -> List.length ds <= 640 ->
  int_ limit (numeral ds) = Ok (numeral_value ds).
Proof.
  intros H Hne Hlen.
  assert (E : int_ limit (numeral ds)
              = match digits false 0 0 (int_rstrip (numeral ds)) with
                | None => Raise invalid_literal
                | Some (v, n) =>
                    if Nat.ltb 640 n && Nat.ltb 0 limit && Nat.ltb limit n
                    then Raise too_many_digits
                    else Ok v
                end).
  { destruct ds as [|d ds]; [congruence|]. inversion_clear H.
    do 10 (destruct d as [|d]; [reflexivity|]). lia. }
  rewrite E, (int_rstrip_numeral _ H), digits_numeral by auto.
  simpl (0 + _). apply Nat.ltb_ge in Hlen. now rewrite Hlen.
Qed.

Lemma before_app_lacks (sep : ascii) (a b : string) :
  lacks sep a = true -> before sep (a ++ b) = a ++ before sep b.
Proof. intros L. unfold before. now rewrite (partition_app_l _ _ _ L). Qed.

Lemma before_app_sep (sep : ascii) (a b : string) :
  lacks sep a = true -> before sep (a ++ String sep b) = a.
Proof. intros L. unfold before. now rewrite (partition_app _ _ _ L). Qed.

Lemma before_cons (sep c : ascii) (t : string) :
  Ascii.eqb c sep = false ->
  before sep (String c t) = String c (before sep t).
Proof.
  intros H. unfold before. cbn [partition]. rewrite H.
  now destruct (partition sep t).
Qed.

Lemma rstrip_app_solid (a b : string) :
  rstrip b <> "" -> rstrip (a ++ b) = a ++ rstrip b.
Proof.
  intros H. induction a as [|c a IH]; [reflexivity|].
  cbn [append rstrip]. rewrite IH.
  destruct (a ++ rstrip b) eqn:E; [|reflexivity].
  destruct a; simpl in E; [contradiction | discriminate].
Qed.

Lemma rstrip_solid_head (c : ascii) (t : string) :
  isspace c = false -> rstrip (String c t) = String c (rstrip t).
Proof. intros H. cbn [rstrip]. destruct (rstrip t); now rewrite ?H. Qed.

Lemma lstrip_solid_head (c : ascii) (t : string) :
  isspace c = false -> lstrip (String c t) = String c t.
Proof. intros H. cbn [lstrip]. now rewrite H. Qed.

(** The trimmed form of a numeral followed by a slash starts with the
    numeral and the slash. *)
Lemma strip_numeral_slash (ws : string) (ds : list nat) (tail : string) :
  blank ws = true -> Forall (fun d => d < 10) ds ->
  strip (ws ++ numeral ds ++ String "/" tail)
  = numeral ds ++ String "/" (rstrip tail).
Proof.
  intros Hws H. unfold strip. rewrite lstrip_app, Hws.
  assert (L : lstrip (numeral ds ++ String "/" tail)
              = numeral ds ++ String "/" tail).
  { destruct H as [|d ds Hd _]; [reflexivity|].
    destruct (digit_char_facts d Hd) as [_ [_ [S _]]].
    cbn [numeral append]. now apply lstrip_solid_head. }
  rewrite L, rstrip_app_solid; rewrite rstrip_solid_head by reflexivity;
    [reflexivity | discriminate].
Qed.

Lemma score_line_value_lemma (limit : nat) (st : locals)
  (intro ws : string) (ds : list nat) (tail : string) :
  lacks ":" intro = true ->
  blank ws = true ->
  Forall (fun d => d < 10) ds -> ds <> []%list -> List.length ds <= 640 ->
  loop_body limit st
    (intro ++ "Matching Score:" ++ ws ++ numeral ds ++ String "/" tail)
  = Ok (Locals (Some (numeral_value ds)) (summary st) (suggested_edits st)
          (Some score_section)).
Proof.
  intros Hintro Hws Hds Hne Hlen.
  set (rest := ws ++ numeral ds ++ String "/" tail).
  assert (P : partition ":" (intro ++ "Matching Score:" ++ rest)
              = (intro ++ "Matching Score", Some rest)).
  { change (intro ++ "Matching Score:" ++ rest)
      with (intro ++ ("Matching Score" ++ String ":" rest)).
    rewrite <- append_assoc. apply partition_app.
    now rewrite lacks_app, Hintro. }
  rewrite loop_body_score_line
    by (apply marker_of_score; now exists intro, rest).
  rewrite (score_attempt_reads limit _ _ _ P). unfold rest.
  rewrite (before_app_lacks ":" ws)
    by (apply blank_lacks; [reflexivity | assumption]).
  rewrite (before_app_lacks ":" (numeral ds))
    by (apply numeral_lacks; [assumption | reflexivity]).
  rewrite before_cons by reflexivity.
  rewrite strip_numeral_slash by assumption.
  rewrite before_app_sep by (apply numeral_lacks; [assumption | reflexivity]).
  now rewrite int_numeral.
Qed.

(** X5. A score line as the prompt asks for it gives the number that is
    written: when the score marker, preceded by no colon, is followed by
    optional white space, a numeral of at most 640 digits and a slash,
    the score is the value of the numeral, whatever follows the slash. *)
Theorem score_line_value (limit : nat) (st : locals)
  (intro ws : string) (ds : list nat) (tail : string) :
  lacks ":" intro = true ->
  blank ws = true ->
  Forall (fun d => d < 10) ds -> ds <> []%list -> List.length ds <= 640 ->
  loop_body limit st
    (intro ++ "Matching Score:" ++ ws ++ numeral ds ++ String "/" tail)
  = Ok (Locals (Some (numeral_value ds)) (summary st) (suggested_edits st)
          (Some score_section)).
Proof.
  intros. now apply score_line_value_lemma.
Qed.

Lemma score_line_value_witness :
  loop_body default_max_str_digits initial
    ("Overall " ++ "Matching Score:" ++ "   " ++ numeral [1; 0; 0]
     ++ String "/" "100 (excellent: a perfect fit)")
  = Ok (Locals (Some (numeral_value [1; 0; 0])) "" [] (Some score_section)).
Proof.
  apply (score_line_value default_max_str_digits initial "Overall " "   "
           [1; 0; 0] "100 (excellent: a perfect fit)");
    try reflexivity; try discriminate.
  - repeat constructor.
  - simpl. lia.
Defined.

(** *** The layout the prompt asks for *)

Lemma contains_after_dash (m e : string) :
  prefix m (String "-" (String " " e)) = false ->
  prefix m (String " " e) = false ->
  contains m ("- " ++ e) = contains m e.
Proof. intros H1 H2. cbn [append contains]. now rewrite H1, H2. Qed.

Lemma plain_dash_line (e : string) : plain ("- " ++ e) = plain e.
Proof.
  unfold plain, marker_of.
  now rewrite !contains_after_dash by reflexivity.
Qed.

Lemma strip_dash_line (e : string) :
  strip ("- " ++ e) = String "-" (rstrip (String " " e)).
Proof.
  unfold strip. cbn [append]. rewrite lstrip_solid_head by reflexivity.
  now rewrite rstrip_solid_head by reflexivity.
Qed.

Lemma startswith_dash_line (e : string) :
  startswith "-" (strip ("- " ++ e)) = true.
Proof.
  rewrite strip_dash_line. apply prefix_true_iff.
  now exists (rstrip (String " " e)).
Qed.

Lemma dash_lines_all (edits : list string) :
  dash_lines (map (append "- ") edits)
  = map (fun e => strip ("- " ++ e)) edits.
Proof.
  unfold dash_lines. induction edits as [|e es IH]; [reflexivity|].
  cbn [map filter]. rewrite startswith_dash_line. now rewrite IH.
Qed.

Lemma loop_body_summary_literal (limit : nat) (st : locals) (text : string) :
  ~ occurs_in "Matching Score:" text ->
  loop_body limit st ("Summary: " ++ text)
  = Ok (Locals (score st) (strip text) (suggested_edits st)
          (Some summary_section)).
Proof.
  intros H. apply contains_false_iff in H.
  assert (M : marker_of ("Summary: " ++ text) = Some summary_section).
  { unfold marker_of. cbn [append contains]. cbn. now rewrite H. }
  destruct (loop_body_summary_line limit _ M) as [a [rest [P E]]].
  rewrite E. cbn in P. injection P as <- <-.
  unfold strip at 1. cbn [lstrip]. reflexivity.
Qed.

(** X6. The layout that the prompt asks for is read back field by field:
    when the model answers with a score line, a summary line and an edits
    section in that layout, the function returns the number of the score
    line, the trimmed summary text and the trimmed dash lines, whatever
    the resume and the job description are. *)
Theorem requested_layout_is_read_back (limit : nat)
  (llm_invoke : string -> result string) (resume_text jd_text : string)
  (ds : list nat) (summary_text : string) (edits : list string) :
  Forall (fun d => d < 10) ds -> ds <> []%list -> List.length ds <= 640 ->
  ~ occurs_in "Matching Score:" summary_text ->
  lacks newline summary_text = true ->
  Forall (fun e => plain e = true /\ lacks newline e = true) edits ->
  llm_invoke (prompt_head ++ resume_text ++ prompt_middle ++ jd_text
              ++ prompt_tail)
  = Ok (join_lines
          (["Matching Score: " ++ numeral ds ++ "/100";
            "Summary: " ++ summary_text;
            "Suggested Edits:"]%string
           ++ map (append "- ") edits)%list) ->
  get_matching_score_summary_and_edits limit llm_invoke resume_text jd_text
  = Ok (Analysis.Make (Some (numeral_value ds)) (strip summary_text)
          (map (fun e => strip ("- " ++ e)) edits)).
Proof.
  intros Hds Hne Hlen Hsum Lsum Hedits Hllm.
  pose proof (get_matching_score_summary_and_edits_runs limit llm_invoke
                resume_text jd_text) as R.
  cbv zeta in R. rewrite Hllm in R. destruct R as [r [P ->]].
  rewrite <- P. clear P r Hllm.
  rewrite parse_response_join.
  - cbn [app for_lines].
    change ("Matching Score: " ++ numeral ds ++ "/100")
      with ("" ++ "Matching Score:" ++ " " ++ numeral ds ++ String "/" "100").
    rewrite score_line_value_lemma by (assumption || reflexivity).
    cbn [bind]. rewrite loop_body_summary_literal by assumption.
    cbn [bind]. rewrite loop_body_edits_line by reflexivity.
    cbn [bind]. rewrite for_lines_plain_edits.
    + cbn [bind]. unfold result_of. simpl. now rewrite dash_lines_all.
    + apply forallb_forall. intros l Hl.
      apply in_map_iff in Hl as [e [<- He]]. rewrite plain_dash_line.
      rewrite Forall_forall in Hedits. now apply Hedits.
    + reflexivity.
  - cbn [app]. repeat constructor.
    + change ("Matching Score: " ++ numeral ds ++ "/100")
        with ("Matching Score: " ++ (numeral ds ++ "/100")).
      rewrite !lacks_app, numeral_lacks by (assumption || reflexivity).
      reflexivity.
    + now rewrite lacks_app, Lsum.
    + apply Forall_forall. intros l Hl.
      apply in_map_iff in Hl as [e [<- He]]. rewrite lacks_app.
      rewrite Forall_forall in Hedits. now rewrite (proj2 (Hedits e He)).
Qed.

Lemma requested_layout_is_read_back_witness :
  get_matching_score_summary_and_edits default_max_str_digits
    (fun _ => Ok (join_lines ["Matching Score: 82/100";
                              "Summary: Strong backend fit ";
                              "Suggested Edits:";
                              "- Add metrics"; "- Mention API design "]))
    "5 years backend engineering, led API redesign"
    "Seeking backend engineer with API design experience"
  = Ok (Analysis.Make (Some 82%Z) "Strong backend fit"
          ["- Add metrics"; "- Mention API design"]).
Proof.
  apply (requested_layout_is_read_back default_max_str_digits _ _ _
           [8; 2] "Strong backend fit "
           ["Add metrics"; "Mention API design "]);
    try reflexivity; try discriminate.
  - repeat constructor.
  - simpl. lia.
  - apply contains_false_iff. reflexivity.
  - repeat constructor.
Defined.

(** *** Sections in another order *)

(** What a section does to the variables: a marker line followed by plain
    lines sets the one variable of its kind, from the lines alone. *)
Lemma section_effect (limit : nat) (header : string) (body : list string)
  (kind : section) :
  marker_of header = Some kind ->
  forallb plain body = true ->
  match kind with
  | score_section =>
      exists v, forall st,
        for_lines limit (header :: body) st
        = Ok (Locals v (summary st) (suggested_edits st) (Some kind))
  | summary_section =>
      exists v, forall st,
        for_lines limit (header :: body) st
        = Ok (Locals (score st) v (suggested_edits st) (Some kind))
  | edits_section =>
      exists v, forall st,
        for_lines limit (header :: body) st
        = Ok (Locals (score st) (summary st) (suggested_edits st ++ v)%list
                (Some kind))
  end.
Proof.
  intros M P. destruct kind.
  - exists (caught (score_attempt limit header)). intros st.
    cbn [for_lines]. rewrite (loop_body_score_line _ _ _ M). cbn [bind].
    rewrite for_lines_plain_idle by (simpl; auto). reflexivity.
  - destruct (loop_body_summary_line limit _ M) as [a [rest [_ H]]].
    exists (summary_with (strip rest) body). intros st.
    cbn [for_lines]. rewrite H. cbn [bind].
    rewrite for_lines_plain_summary by (simpl; auto). reflexivity.
  - exists (dash_lines body). intros st.
    exact (for_lines_edits_block _ _ _ _ M P).
Qed.

(** X7. Sections may come in any order: two sections of different kinds,
    each a marker line followed by lines without markers, give the same
    score, summary and edits whichever of the two comes first. *)
Theorem sections_commute (limit : nat) (st : locals)
  (header1 header2 : string) (body1 body2 : list string)
  (kind1 kind2 : section) :
  marker_of header1 = Some kind1 ->
  marker_of header2 = Some kind2 ->
  kind1 <> kind2 ->
  forallb plain body1 = true ->
  forallb plain body2 = true ->
  exists st12 st21,
    for_lines limit ((header1 :: body1) ++ header2 :: body2) st = Ok st12 /\
    for_lines limit ((header2 :: body2) ++ header1 :: body1) st = Ok st21 /\
    result_of st12 = result_of st21.
Proof.
  intros M1 M2 Hne P1 P2.
  pose proof (section_effect limit _ _ _ M1 P1) as E1.
  pose proof (section_effect limit _ _ _ M2 P2) as E2.
  rewrite !for_lines_app.
  destruct kind1, kind2; try congruence;
    destruct E1 as [v1 E1], E2 as [v2 E2];
    rewrite E1, E2; cbn [bind]; rewrite E1, E2;
    eexists; eexists; repeat split.
Qed.

Lemma sections_commute_witness :
  exists st12 st21,
    for_lines default_max_str_digits
      (["Suggested Edits:"; "- one"; "chatter"]
       ++ ["Summary: fine"; "- not an edit"])%list initial = Ok st12 /\
    for_lines default_max_str_digits
      (["Summary: fine"; "- not an edit"]
       ++ ["Suggested Edits:"; "- one"; "chatter"])%list initial = Ok st21 /\
    result_of st12 = result_of st21.
Proof.
  apply (sections_commute default_max_str_digits initial
           "Suggested Edits:" "Summary: fine"
           ["- one"; "chatter"] ["- not an edit"]
           edits_section summary_section);
    try reflexivity. discriminate.
Defined.

(* ================================================================== *)
(** * Extracting the text of a document                                 *)
(* ================================================================== *)

Lemma join_lines_cons (x y : string) (rest : list string) :
  join_lines (x :: y :: rest) = x ++ String newline (join_lines (y :: rest)).
Proof. reflexivity. Qed.

Lemma join_lines_split (parts : list string) :
  parts <> []%list ->
  split newline (join_lines parts) = flat_map (split newline) parts.
Proof.
  induction parts as [|x [|y ys] IH]; intros H; [congruence| |].
  - simpl. now rewrite app_nil_r.
  - rewrite join_lines_cons, split_append_sep, IH by discriminate.
    reflexivity.
Qed.

(** X8. The extracted text keeps every page and the order of the pages:
    cut at its newlines, the text of a document with at least one page is
    the lines of its first page, then the lines of the second, and so on;
    pages without a newline come back one per line. *)
Theorem extract_text_keeps_pages (documents : list document) :
  documents <> []%list ->
  split newline (extract_text_from_documents documents)
  = flat_map (fun d => split newline (page_content d)) documents /\
  (Forall (fun d => lacks newline (page_content d) = true) documents ->
   split newline (extract_text_from_documents documents)
   = map page_content documents).
Proof.
  intros H. unfold extract_text_from_documents.
  assert (E : split newline (join_lines (map page_content documents))
              = flat_map (fun d => split newline (page_content d)) documents).
  { rewrite join_lines_split by (destruct documents; [congruence|discriminate]).
    now rewrite flat_map_concat_map, map_map, <- flat_map_concat_map. }
  split; [exact E|]. intros L. rewrite E. clear E H.
  induction L as [|d ds Hd _ IH]; [reflexivity|].
  simpl. now rewrite (split_lacks _ _ Hd), IH.
Qed.

Lemma extract_text_keeps_pages_witness :
  split newline
    (extract_text_from_documents
       [Document "page one"; Document ""; Document "page three"])
  = ["page one"; ""; "page three"].
Proof.
  destruct (extract_text_keeps_pages
              [Document "page one"; Document ""; Document "page three"])
    as [_ H]; [discriminate|].
  apply H. repeat constructor.
Defined.

(** X9. The extracted text is empty exactly when the document has no
    page or one page with no text; two or more pages, even empty ones,
    give a text that is not empty. *)
Theorem extract_text_empty_iff (documents : list document) :
  extract_text_from_documents documents = "" <->
  documents = []%list \/ documents = [Document ""]%list.
Proof.
  unfold extract_text_from_documents. split.
  - destruct documents as [|[x] [|y ys]].
    + now left.
    + cbn. intros ->. now right.
    + change (map page_content (Document x :: y :: ys))
        with (x :: page_content y :: map page_content ys)%list.
      rewrite join_lines_cons. destruct x; simpl; discriminate.
  - intros [->| ->]; reflexivity.
Qed.

Lemma extract_text_empty_iff_witness :
  extract_text_from_documents [Document ""] = "".
Proof. apply (proj2 (extract_text_empty_iff [Document ""])). now right. Defined.

(* ================================================================== *)
(** * The upload of a resume                                            *)
(* ================================================================== *)






(* ================================================================== *)
(** * What the page shows                                               *)
(* ================================================================== *)

(** X11. The colour of the score and the "Key Strengths" message always
    agree: green goes with "Strong match" (70 or more), orange with "Good
    potential" (50 to 69), and red or the gray "N/A" with "Significant
    gaps"; "N/A" is shown exactly for an absent score and for the score
    0, so a score of 0 is displayed like a missing one. *)
Theorem score_display_agrees (matching_score : option Z) :
  match key_strengths matching_score with
  | success _ =>
      exists z, matching_score = Some z /\ (70 <= z)%Z /\
                score_box matching_score = Some ("green", z)
  | warning _ =>
      exists z, matching_score = Some z /\ (50 <= z < 70)%Z /\
                score_box matching_score = Some ("orange", z)
  | error _ =>
      (score_box matching_score = None /\
       (matching_score = None \/ matching_score = Some 0%Z)) \/
      (exists z, matching_score = Some z /\ (z < 50)%Z /\ z <> 0%Z /\
                 score_box matching_score = Some ("red", z))
  end.
Proof.
  destruct matching_score as [z|]; [|left; split; [reflexivity | now left]].
  unfold key_strengths, score_box, score_color, truthy.
  destruct (Z.eqb_spec z 0) as [->|Hz]; simpl.
  - left. split; [reflexivity | now right].
  - destruct (Z.leb_spec 70 z); simpl.
    + exists z. repeat split; trivial.
    + destruct (Z.leb_spec 50 z); simpl.
      * exists z. repeat split; trivial.
      * right. exists z. repeat split; trivial.
Qed.

Lemma length_slice_to (n : nat) (s : string) :
  String.length (slice_to n s) = Nat.min n (String.length s).
Proof.
  unfold slice_to. revert n; induction s as [|c s IH]; intros [|n];
    simpl; try reflexivity.
  now rewrite IH.
Qed.

Lemma slice_to_prefix (n : nat) (s : string) :
  exists rest, s = slice_to n s ++ rest.
Proof.
  unfold slice_to. revert n; induction s as [|c s IH]; intros [|n]; simpl.
  - now exists "".
  - now exists "".
  - now exists (String c s).
  - destruct (IH n) as [rest E]. exists rest. now rewrite E at 1.
Qed.

Lemma preview_cases (limit : nat) (text : string) :
  (String.length text <= limit -> preview limit text = text) /\
  (limit < String.length text ->
   exists shown rest,
     text = shown ++ rest /\ String.length shown = limit /\
     preview limit text = shown ++ "...").
Proof.
  unfold preview. split; intros H.
  - apply Nat.ltb_ge in H. now rewrite H.
  - destruct (slice_to_prefix limit text) as [rest E].
    exists (slice_to limit text), rest. split; [exact E|].
    rewrite length_slice_to. apply Nat.ltb_lt in H as H'. rewrite H'.
    split; [lia | reflexivity].
Qed.

(** X12. The previews show a text of at most 1000 (resume) or 500 (job
    description) characters as it is, and otherwise its first 1000 or 500
    characters followed by three dots; a fetched job description is the
    first 5000 characters of the page, or the whole page when it is
    shorter. *)
Theorem previews_cut_long_texts (text : string) :
  (String.length text <= 1000 -> resume_preview text = text) /\
  (1000 < String.length text ->
   exists shown rest,
     text = shown ++ rest /\ String.length shown = 1000 /\
     resume_preview text = shown ++ "...") /\
  (String.length text <= 500 -> jd_preview text = text) /\
  (500 < String.length text ->
   exists shown rest,
     text = shown ++ rest /\ String.length shown = 500 /\
     jd_preview text = shown ++ "...") /\
  (exists rest, text = fetched_jd_text text ++ rest) /\
  String.length (fetched_jd_text text) = Nat.min 5000 (String.length text).
Proof.
  unfold resume_preview, jd_preview, fetched_jd_text.
  destruct (preview_cases 1000 text) as [R1 R2].
  destruct (preview_cases 500 text) as [J1 J2].
  repeat split; try assumption.
  - apply slice_to_prefix.
  - apply length_slice_to.
Qed.

Lemma previews_cut_long_texts_witness :
  jd_preview "Seeking backend engineer with API design experience"
  = "Seeking backend engineer with API design experience".
Proof.
  apply (proj1 (proj2 (proj2 (previews_cut_long_texts
    "Seeking backend engineer with API design experience")))).
  apply Nat.leb_le. reflexivity.
Defined.
